(** * Workflow engine of the multi-agent construction system

    A shallow embedding of [workflow_engine.py] (the stage graph, the gate
    approvals, the input aggregation and the recursive stage runner) and of
    three HTTP handlers of [backend/main.py] (the status of a project, the
    creation of a project, the content of an artifact), followed by the
    properties of the engine.

    Conventions of the embedding.
    - A Python [dict] that is only looked up and updated by key is a [gmap];
      a [dict] whose iteration order matters ([WORKFLOW_STAGES],
      [DECISION_GATES]) is an association list in declaration order.
    - The project directory is a record: one list of files for every
      [stage_<i>] directory that exists (in the order [iterdir] yields them),
      and one entry for every [gate_<id>_approval.json] file.
    - The engine is written in a state-and-exception monad over the machine
      state (project directory, outside world of the agents, logger output).
    - [json.load] is a parameter with three outcomes: the parsed value,
      [JSONDecodeError], or any other exception; only the second is caught
      by the input aggregation.
    - [run_stage] and [approve_gate] call each other; the recursion is cut by
      a fuel argument, and the fuel the top-level definitions pass is shown
      to be always sufficient. *)

From stdpp Require Import gmap strings list fin_maps.
From Stdlib Require Import ZArith Lia.

Open Scope string_scope.

(** ** Values *)

(** What [json.load] returns and what the agents exchange. *)
#[local] Unset Elimination Schemes.
Inductive json : Type :=
| JNull
| JBool (b : bool)
| JNum (n : Z)
| JStr (s : string)
| JArr (items : list json)
| JObj (fields : list (string * json)).
#[local] Set Elimination Schemes.

(** ** The static stage graph *)

Record stage_info := {
  name : string;
  agents : list string;
  gate_after : option string   (* [None] is Python's [None] *)
}.

Record gate_info := {
  gate_name : string;
  stage_before : nat
}.

Definition WORKFLOW_STAGES : list (nat * stage_info) := [
  (1, {| name := "Client Intake"; agents := ["briefing_constraint_extraction_agent"]; gate_after := Some "G0" |});
  (2, {| name := "Data & Constraints Harvest"; agents := ["data_harvester_agent"; "geospatial_site_context_agent"]; gate_after := None |});
  (3, {| name := "Feasibility & Risk Scan"; agents := ["risk_mitigation_agent"]; gate_after := None |});
  (4, {| name := "Optioneering & Strategic Scenarios"; agents := ["optioneering_strategy_agent"]; gate_after := Some "G1" |});
  (5, {| name := "Concept Massing & Facade"; agents := ["massing_facade_agent"]; gate_after := None |});
  (6, {| name := "Space Planning & Adjacency"; agents := ["space_planning_adjacency_agent"; "interior_design_agent"]; gate_after := Some "G2" |});
  (7, {| name := "Structural & Material Strategy"; agents := ["structural_design_agent"]; gate_after := None |});
  (8, {| name := "MEP & Sustainability Strategy"; agents := ["mep_systems_agent"; "sustainability_energy_agent"]; gate_after := Some "G3" |});
  (9, {| name := "Cost Plan & Schedule Baseline"; agents := ["cost_schedule_agent"]; gate_after := None |});
  (10, {| name := "Detailed Design & BIM Development"; agents := ["bim_cad_documentation_agent"; "architectural_detailing_agent"; "visualization_agent"]; gate_after := Some "G4" |});
  (11, {| name := "Clash Detection & Coordination"; agents := ["clash_coordination_agent"]; gate_after := None |});
  (12, {| name := "Code Compliance & Standards Check"; agents := ["code_standards_agent"; "compliance_and_construction_agent"]; gate_after := Some "G5" |});
  (13, {| name := "Procurement & Supply Chain Strategy"; agents := ["procurement_supply_chain_agent"]; gate_after := None |});
  (14, {| name := "Site Logistics & Safety Plan"; agents := ["site_logistics_safety_agent"]; gate_after := None |});
  (15, {| name := "Construction Monitoring & CV"; agents := ["construction_monitoring_cv_agent"]; gate_after := None |});
  (16, {| name := "Change Control & Claims Management"; agents := ["change_control_claims_agent"]; gate_after := None |});
  (17, {| name := "Commissioning & Asset Management"; agents := ["commissioning_asset_agent"]; gate_after := Some "G6" |});
  (18, {| name := "Digital Twin Finalization & Handover"; agents := ["bim_cad_documentation_agent"]; gate_after := None |})
].

Definition DECISION_GATES : list (string * gate_info) := [
  ("G0", {| gate_name := "Project Charter Approval"; stage_before := 1 |});
  ("G1", {| gate_name := "Strategy/Options Approval"; stage_before := 4 |});
  ("G2", {| gate_name := "Concept Design Approval"; stage_before := 6 |});
  ("G3", {| gate_name := "Schematic/Prelim Engineering Approval"; stage_before := 8 |});
  ("G4", {| gate_name := "Design Development/BIM Approval"; stage_before := 10 |});
  ("G5", {| gate_name := "Construction Docs/Permits Approval"; stage_before := 12 |});
  ("G6", {| gate_name := "Handover/Digital Twin Approval"; stage_before := 18 |})
].

(** [d[k]] and [k in d] on a dict kept as an association list. *)
Fixpoint assoc {K V} `{EqDecision K} (k : K) (d : list (K * V)) : option V :=
  match d with
  | [] => None
  | (k', v) :: d' => if decide (k' = k) then Some v else assoc k d'
  end.

Definition stage_lookup (stage_id : nat) : option stage_info :=
  assoc stage_id WORKFLOW_STAGES.

Definition gate_lookup (gate_id : string) : option gate_info :=
  assoc gate_id DECISION_GATES.

(** [stage_id in WORKFLOW_STAGES] *)
Definition stage_declared (stage_id : nat) : bool :=
  bool_decide (is_Some (stage_lookup stage_id)).

(** ** The project store *)

(** A file of a stage directory, with its name split the way [pathlib] does
    ([name = stem + suffix]). The entries of a stage directory are regular
    files: no code of the repository creates a directory inside one. *)
Record file := {
  stem : string;
  suffix : string;
  content : string
}.

Definition file_name (f : file) : string := stem f ++ suffix f.

Record project_dir := {
  initial_project_data : option json;    (* initial_project_data.json *)
  stage_dirs : gmap nat (list file);     (* stage_<i>/, in iterdir order *)
  approvals : gmap string json           (* gate_<id>_approval.json *)
}.

(** ** Logger output, exceptions *)

Inductive log_event :=
| LogApproving (gate_id : string)                 (* info, approve_gate entry *)
| LogGateApproved (gate_id : string)              (* info, after the write *)
| LogFinalGate                                    (* info, workflow complete *)
| LogGathering (stage_id : nat)                   (* info, _gather_inputs_for_stage *)
| LogBadJson (file : string)                      (* warning, could not parse *)
| LogRunStage (stage_id : nat)                    (* info, run_stage entry *)
| LogStageStart (stage_id : nat) (stage_name : string)
| LogActivating (agent_names : list string)
| LogAgentMissing (agent_name : string)           (* warning, not in ADK system *)
| LogStageCompleted (stage_id : nat) (results : list json)
| LogAutoApprove (gate_id : string)
| LogNoGate (stage_id next_stage_id : nat).

Inductive exn :=
| GateNotFound (gate_id : string)     (* ValueError("Gate <id> not found.") *)
| StageNotFound (stage_id : nat)      (* ValueError("Stage <id> not found.") *)
| DirNotFound (stage_id : nat)        (* FileNotFoundError of iterdir *)
| AgentRaised (message : string)      (* whatever process_request raised *)
| LoadFailed (message : string).      (* what json.load raised, other than
                                         JSONDecodeError *)

Inductive res (A : Type) :=
| Done (a : A)
| Raise (e : exn)
| OutOfFuel.
Arguments Done {A} a.
Arguments Raise {A} e.
Arguments OutOfFuel {A}.

(** What [json.load] does on the bytes of a file: it returns the parsed
    value, raises [JSONDecodeError], or raises something else
    ([UnicodeDecodeError] on bytes that are not UTF-8, [RecursionError] on
    deep nesting). *)
Inductive load_outcome :=
| Loaded (v : json)
| DecodeError
| LoadRaised (message : string).

(** What a call of [process_request] does: return a result or raise. *)
Inductive outcome :=
| Returned (result : json)
| Raised (message : string).

(** The fields of a [WorkflowManager] object. *)
Record manager := {
  project_id : string;
  initial_data : list (string * json)
}.

(** ** Agents, machine state, the engine *)

Section Engine.

(** The outside world the agents talk to (the generative service). *)
Variable World : Type.

(** [json.load] on the content of a file. *)
Variable json_load : string -> load_outcome.

(** [process_request(user_input, project_path)]: every agent of the
    repository builds the paths it reads and writes as
    [project_path / "stage_<n>" / ...], so an agent acts on the stage
    directories (and on the world), and either returns a result or raises. *)
Definition agent : Type :=
  gmap string json -> string -> World -> gmap nat (list file) ->
  World * gmap nat (list file) * outcome.

(** The agent map returned by [get_adk_system()]. *)
Variable adk_system : gmap string agent.

Record machine := {
  proj : project_dir;
  world : World;
  log : list log_event
}.

Definition M (A : Type) : Type := machine -> machine * res A.

Definition ret {A} (a : A) : M A := fun m => (m, Done a).

Definition raise {A} (e : exn) : M A := fun m => (m, Raise e).

Definition out_of_fuel {A} : M A := fun m => (m, OutOfFuel).

Definition bind {A B} (c : M A) (k : A -> M B) : M B :=
  fun m =>
    match c m with
    | (m', Done a) => k a m'
    | (m', Raise e) => (m', Raise e)
    | (m', OutOfFuel) => (m', OutOfFuel)
    end.

Notation "x <- c ;; k" := (bind c (fun x => k))
  (at level 100, c at next level, right associativity).
Notation "c ;;; k" := (bind c (fun _ => k))
  (at level 100, right associativity).

Definition emit (e : log_event) : M unit :=
  fun m => ({| proj := proj m; world := world m; log := log m ++ [e] |}, Done tt).

Definition get_proj : M project_dir := fun m => (m, Done (proj m)).

Variable self : manager.

(** *** _get_pending_gate *)

Fixpoint first_unapproved (gates : list (string * gate_info))
    (p : project_dir) : option string :=
  match gates with
  | [] => None
  | (gate_id, _) :: gates' =>
      match approvals p !! gate_id with
      | None => Some gate_id
      | Some _ => first_unapproved gates' p
      end
  end.

Definition _get_pending_gate (p : project_dir) : option string :=
  first_unapproved DECISION_GATES p.

(** *** _gather_inputs_for_stage *)

Definition iterdir (i : nat) : M (list file) :=
  fun m =>
    match stage_dirs (proj m) !! i with
    | Some d => (m, Done d)
    | None => (m, Raise (DirNotFound i))
    end.

Definition gather_file (artifact_file : file)
    (gathered_inputs : gmap string json) : M (gmap string json) :=
  if decide (suffix artifact_file = ".json") then
    match json_load (content artifact_file) with
    | Loaded v => ret (<[stem artifact_file := v]> gathered_inputs)
    | DecodeError =>
        emit (LogBadJson (file_name artifact_file)) ;;;
        ret (<[stem artifact_file := JObj []]> gathered_inputs)
    | LoadRaised message => raise (LoadFailed message)
    end
  else ret gathered_inputs.

Fixpoint gather_files (fs : list file)
    (gathered_inputs : gmap string json) : M (gmap string json) :=
  match fs with
  | [] => ret gathered_inputs
  | f :: fs' =>
      g <- gather_file f gathered_inputs ;;
      gather_files fs' g
  end.

Fixpoint gather_stages (stages : list nat)
    (gathered_inputs : gmap string json) : M (gmap string json) :=
  match stages with
  | [] => ret gathered_inputs
  | i :: stages' =>
      d <- iterdir i ;;
      g <- gather_files d gathered_inputs ;;
      gather_stages stages' g
  end.

Definition initial_inputs (stage_id : nat) : gmap string json :=
  <["stage_id" := JNum (Z.of_nat stage_id)]>
    (<["initial_data" := JObj (initial_data self)]> ∅).

Definition _gather_inputs_for_stage (stage_id : nat) : M (gmap string json) :=
  emit (LogGathering stage_id) ;;;
  gather_stages (seq 1 (stage_id - 1)) (initial_inputs stage_id).

(** *** run_stage and approve_gate *)

Definition process_request (a : agent) (user_input : gmap string json) : M json :=
  fun m =>
    match a user_input (project_id self) (world m) (stage_dirs (proj m)) with
    | (w, d, o) =>
        let m' := {| proj := {| initial_project_data := initial_project_data (proj m);
                                stage_dirs := d;
                                approvals := approvals (proj m) |};
                     world := w;
                     log := log m |} in
        match o with
        | Returned r => (m', Done r)
        | Raised msg => (m', Raise (AgentRaised msg))
        end
    end.

Fixpoint run_agents (current_input : gmap string json)
    (ordered_agents : list string) (stage_results : list json) : M (list json) :=
  match ordered_agents with
  | [] => ret stage_results
  | agent_name :: rest =>
      match adk_system !! agent_name with
      | Some a =>
          result <- process_request a
                      (<["stage_results" := JArr stage_results]> current_input) ;;
          run_agents current_input rest (stage_results ++ [result])
      | None =>
          emit (LogAgentMissing agent_name) ;;;
          run_agents current_input rest stage_results
      end
  end.

Definition write_approval (gate_id : string) (approval_data : json) : M unit :=
  fun m =>
    ({| proj := {| initial_project_data := initial_project_data (proj m);
                   stage_dirs := stage_dirs (proj m);
                   approvals := <[gate_id := approval_data]> (approvals (proj m)) |};
        world := world m;
        log := log m |}, Done tt).

Definition approved_response (gate_id message : string) : json :=
  JObj [("status", JStr "approved"); ("gate", JStr gate_id); ("message", JStr message)].

Definition continues_message (gate_id : string) : string :=
  "Gate " ++ gate_id ++ " approved. Workflow continues.".

Definition complete_message : string := "Final gate approved. Workflow complete.".

(** [approve_gate], with the [run_stage] it calls as a parameter. *)
Definition approve_gate_with (run_stage : nat -> M json)
    (gate_id : string) (approval_data : json) : M json :=
  emit (LogApproving gate_id) ;;;
  match gate_lookup gate_id with
  | None => raise (GateNotFound gate_id)
  | Some gate =>
      write_approval gate_id approval_data ;;;
      emit (LogGateApproved gate_id) ;;;
      let next_stage_id := stage_before gate + 1 in
      if stage_declared next_stage_id then
        run_stage next_stage_id ;;;
        ret (approved_response gate_id (continues_message gate_id))
      else
        emit LogFinalGate ;;;
        ret (approved_response gate_id complete_message)
  end.

Definition auto_approval : json :=
  JObj [("approved_by", JStr "system");
        ("comments", JStr "Auto-approved for continuous workflow");
        ("approved", JBool true)].

Definition completed_response (stage_id : nat) (results : list json) : json :=
  JObj [("status", JStr "completed"); ("stage", JNum (Z.of_nat stage_id));
        ("results", JArr results)].

(** The agents of a stage in the order they are run. *)
Definition ordered_agents_of (stage_id : nat) (stage : stage_info) : list string :=
  if decide (stage_id = 2)
  then ["data_harvester_agent"; "geospatial_site_context_agent"]
  else agents stage.

(** Lines 193-222 of [run_stage]: gather the inputs, run the agents. *)
Definition stage_body (stage_id : nat) (stage : stage_info) : M (list json) :=
  emit (LogStageStart stage_id (name stage)) ;;;
  emit (LogActivating (agents stage)) ;;;
  current_input <- _gather_inputs_for_stage stage_id ;;
  results <- run_agents current_input (ordered_agents_of stage_id stage) [] ;;
  emit (LogStageCompleted stage_id results) ;;;
  ret results.

Fixpoint run_stage_fuel (fuel : nat) (stage_id : nat) : M json :=
  match fuel with
  | 0 => out_of_fuel
  | S fuel' =>
      emit (LogRunStage stage_id) ;;;
      match stage_lookup stage_id with
      | None => raise (StageNotFound stage_id)
      | Some stage =>
          results <- stage_body stage_id stage ;;
          match gate_after stage with
          | Some gate_id =>
              emit (LogAutoApprove gate_id) ;;;
              approve_gate_with (run_stage_fuel fuel') gate_id auto_approval ;;;
              ret (completed_response stage_id results)
          | None =>
              let next_stage_id := stage_id + 1 in
              if stage_declared next_stage_id then
                emit (LogNoGate stage_id next_stage_id) ;;;
                run_stage_fuel fuel' next_stage_id ;;;
                ret (completed_response stage_id results)
              else ret (completed_response stage_id results)
          end
      end
  end.

(** The recursion visits strictly increasing stage ids, so one unit of
    fuel per declared stage is enough. *)
Definition fuel_bound : nat := length WORKFLOW_STAGES.

Definition run_stage (stage_id : nat) : M json :=
  run_stage_fuel fuel_bound stage_id.

Definition approve_gate (gate_id : string) (approval_data : json) : M json :=
  approve_gate_with run_stage gate_id approval_data.

End Engine.

Arguments machine World : clear implicits.
Arguments M World A : clear implicits.
Arguments agent World : clear implicits.
Arguments proj {World} m.
Arguments world {World} m.
Arguments log {World} m.
Arguments Build_machine {World} proj world log.
Arguments ret {World A} a m.
Arguments raise {World A} e m.
Arguments out_of_fuel {World A} m.
Arguments bind {World A B} c k m.
Arguments emit {World} e m.
Arguments iterdir {World} i m.
Arguments gather_file {World} json_load artifact_file gathered_inputs m.
Arguments gather_files {World} json_load fs gathered_inputs m.
Arguments gather_stages {World} json_load stages gathered_inputs m.
Arguments _gather_inputs_for_stage {World} json_load self stage_id m.
Arguments process_request {World} self a user_input m.
Arguments run_agents {World} adk_system self current_input ordered_agents stage_results m.
Arguments write_approval {World} gate_id approval_data m.
Arguments approve_gate_with {World} run_stage gate_id approval_data m.
Arguments stage_body {World} json_load adk_system self stage_id stage m.
Arguments run_stage_fuel {World} json_load adk_system self fuel stage_id m.
Arguments run_stage {World} json_load adk_system self stage_id m.
Arguments approve_gate {World} json_load adk_system self gate_id approval_data m.

Notation "x <- c ;; k" := (bind c (fun x => k))
  (at level 100, c at next level, right associativity).
Notation "c ;;; k" := (bind c (fun _ => k))
  (at level 100, right associativity).

(** ** Constructing a manager, and the status endpoint *)

Definition empty_project : project_dir :=
  {| initial_project_data := None; stage_dirs := ∅; approvals := ∅ |}.

(** [WorkflowManager.__init__]: [fresh_uuid] is what [uuid.uuid4()] yields. *)
Definition new_manager (project_id : option string)
    (initial_data : option (list (string * json))) (fresh_uuid : string) : manager :=
  {| project_id :=
       match project_id with
       | Some id => if decide (id = "") then fresh_uuid else id
       | None => fresh_uuid
       end;
     initial_data := default [] initial_data |}.

(** [(project_path / f"stage_{stage_id}").mkdir(exist_ok=True)] *)
Definition mkdir_stage (p : project_dir) (stage_id : nat) : project_dir :=
  match stage_dirs p !! stage_id with
  | Some _ => p
  | None =>
      {| initial_project_data := initial_project_data p;
         stage_dirs := <[stage_id := []]> (stage_dirs p);
         approvals := approvals p |}
  end.

(** The store is the directory [PROJECT_STORE_PATH], one entry per project.
    This is the constructor where every [mkdir] succeeds, that is for a
    project id the file system accepts as the name of a directory; for any
    other id (one longer than a file name may be, say) [mkdir] raises
    [OSError] and no manager is constructed. *)
Definition _initialize_project (self : manager)
    (store : gmap string project_dir) : gmap string project_dir :=
  let p0 := default empty_project (store !! project_id self) in
  let p1 :=
    match initial_data self with
    | [] => p0
    | _ :: _ =>
        {| initial_project_data := Some (JObj (initial_data self));
           stage_dirs := stage_dirs p0;
           approvals := approvals p0 |}
    end in
  <[project_id self := foldl mkdir_stage p1 (WORKFLOW_STAGES.*1)]> store.

Record artifact := {
  artifact_name : string;
  artifact_type : string;
  artifact_content : json
}.

Record stage_status := {
  status_stage_id : nat;
  status_name : string;
  status : string;
  status_artifacts : list artifact
}.

Record project_status := {
  status_project_id : string;
  stages : list stage_status;
  pending_gate : option string
}.

Inductive http_response (A : Type) :=
| Http_ok (body : A)
| Http_error (status_code : nat).
Arguments Http_ok {A} body.
Arguments Http_error {A} status_code.

Section Status.

(** Lines 87-116 of [get_project_status]: the artifacts one file of a stage
    directory contributes to the status payload. The block is wrapped in a
    catch-all handler that turns any failure into an artifact of type
    "error", so it yields a list for every file. *)
Variable render_artifacts : file -> list artifact.

Variable self : manager.

Definition status_of_stage (p : project_dir) (unlocked_until_stage : nat)
    (stage_id : nat) (stage : stage_info) : exn + stage_status :=
  match stage_dirs p !! stage_id with
  | None => inl (DirNotFound stage_id)
  | Some d =>
      let artifacts := flat_map render_artifacts d in
      let status0 :=
        match artifacts with
        | _ :: _ => "Completed"
        | [] => if (stage_id <=? unlocked_until_stage)%nat then "Pending" else "Locked"
        end in
      let status1 :=
        match artifacts with
        | [] => if (stage_id =? 1)%nat then "Pending" else status0
        | _ :: _ => status0
        end in
      inr {| status_stage_id := stage_id; status_name := name stage;
             status := status1; status_artifacts := artifacts |}
  end.

Fixpoint stages_status (p : project_dir) (unlocked_until_stage : nat)
    (l : list (nat * stage_info)) : exn + list stage_status :=
  match l with
  | [] => inr []
  | (stage_id, stage) :: l' =>
      match status_of_stage p unlocked_until_stage stage_id stage with
      | inl e => inl e
      | inr s =>
          match stages_status p unlocked_until_stage l' with
          | inl e => inl e
          | inr ss => inr (s :: ss)
          end
      end
  end.

Definition get_project_status (p : project_dir) : exn + project_status :=
  let pending_gate := first_unapproved DECISION_GATES p in
  let unlocked_until_stage :=
    match pending_gate with
    | Some g => from_option stage_before 18 (gate_lookup g)
    | None => 18
    end in
  match stages_status p unlocked_until_stage WORKFLOW_STAGES with
  | inl e => inl e
  | inr ss =>
      inr {| status_project_id := project_id self; stages := ss;
             pending_gate := pending_gate |}
  end.

End Status.

(** [GET /projects/{project_id}]: builds a manager for the id (which
    initialises the project directory), then renders the status; any
    exception becomes a 404. *)
Definition http_get_project_status (render_artifacts : file -> list artifact)
    (fresh_uuid : string) (requested_id : string)
    (store : gmap string project_dir)
    : gmap string project_dir * http_response project_status :=
  let manager := new_manager (Some requested_id) None fresh_uuid in
  let store' := _initialize_project manager store in
  match store' !! project_id manager with
  | None => (store', Http_error 404)
  | Some p =>
      match get_project_status render_artifacts manager p with
      | inl _ => (store', Http_error 404)
      | inr st => (store', Http_ok st)
      end
  end.

(** ** Two more handlers of [backend/main.py] *)

(** What [get_artifact_content] answers. *)
Inductive artifact_response :=
| Artifact_ok (type : string) (content : json)   (* 200, {"type", "content"} *)
| Artifact_error (status_code : nat).            (* HTTPException *)

(** [isinstance(content, dict) and key in content], with [content[key]]. *)
Definition dict_get (key : string) (content : json) : option json :=
  match content with
  | JObj fields => assoc key fields
  | _ => None
  end.

Section Handlers.

Variable World : Type.
Variable json_load : string -> load_outcome.
Variable adk_system : gmap string (agent World).

(** [GET /projects/{project_id}/artifacts/{stage_id}/{artifact_name}].
    The path exists when the project has the stage directory and the
    directory has a file of that name; this is the handler for a project id
    and an artifact name that are plain names (neither [.] nor [..], which
    the file system resolves to directories that are no entry of the
    store). A JSON file is loaded and answered, a render inside it first;
    for any other file the handler evaluates [FileResponse], a name the
    module never imports, and the [NameError] becomes a 500 like every other
    exception of the block, those of [json.load] included. *)
Definition get_artifact_content (store : gmap string project_dir)
    (requested_id : string) (stage_id : nat) (artifact_name : string)
    : artifact_response :=
  match store !! requested_id with
  | None => Artifact_error 404
  | Some p =>
      match stage_dirs p !! stage_id with
      | None => Artifact_error 404
      | Some d =>
          match find (fun f => bool_decide (file_name f = artifact_name)) d with
          | None => Artifact_error 404
          | Some f =>
              if decide (suffix f = ".json") then
                match json_load (content f) with
                | Loaded content =>
                    match dict_get "refined_render_base64" content with
                    | Some v => Artifact_ok "image_base64" v
                    | None =>
                        match dict_get "conceptual_render_base64" content with
                        | Some v => Artifact_ok "image_base64" v
                        | None => Artifact_ok "json" content
                        end
                    end
                | DecodeError | LoadRaised _ => Artifact_error 500
                end
              else Artifact_error 500
          end
      end
  end.

(** The state of the server: the project store, the world of the agents
    and the logger output. *)
Record server := {
  projects : gmap string project_dir;
  outside : World;
  logged : list log_event
}.

Inductive create_response :=
| Created (project_id : string) (stage_1_results : json)   (* 201 *)
| Create_error (status_code : nat).

(** [POST /projects]: a manager with a fresh id and the request as intake
    payload, then [run_stage(1)]; every exception becomes a 500. What the
    run did to the project directory stays in the store either way. *)
Definition create_project (request : list (string * json)) (fresh_uuid : string)
    (sv : server) : server * create_response :=
  let manager := new_manager None (Some request) fresh_uuid in
  let store := _initialize_project manager (projects sv) in
  match store !! project_id manager with
  | None => ({| projects := store; outside := outside sv; logged := logged sv |},
             Create_error 500)
  | Some p =>
      match run_stage json_load adk_system manager 1
              {| proj := p; world := outside sv; log := logged sv |} with
      | (m, r) =>
          ({| projects := <[project_id manager := proj m]> store;
              outside := world m; logged := log m |},
           match r with
           | Done v => Created (project_id manager) v
           | _ => Create_error 500
           end)
      end
  end.

End Handlers.

Arguments projects {World} s.
Arguments outside {World} s.
Arguments logged {World} s.
Arguments Build_server {World} projects outside logged.
Arguments create_project {World} json_load adk_system request fresh_uuid sv.

(** ** Concrete data used by the examples *)

Module Sample.

(** A stand-in for [json.load] that knows two documents and rejects a
    lone byte 0xFF the way the UTF-8 decoder does. *)
Definition load (text : string) : load_outcome :=
  if decide (text = "{}") then Loaded (JObj [])
  else if decide (text = "null") then Loaded JNull
  else if decide (text = String (Ascii.ascii_of_nat 255) "")
       then LoadRaised "'utf-8' codec can't decode byte 0xff"
  else DecodeError.

Definition success : json := JObj [("status", JStr "success")].
Definition failure : json := JObj [("status", JStr "error"); ("message", JStr "no reply")].

(** An agent that writes nothing and reports success. *)
Definition ok_agent : agent unit :=
  fun _ _ w d => (w, d, Returned success).

(** An agent that catches its own failure and reports [status = error]. *)
Definition failing_agent : agent unit :=
  fun _ _ w d => (w, d, Returned failure).

(** An agent whose [process_request] raises. *)
Definition raising_agent : agent unit :=
  fun _ _ w d => (w, d, Raised "Stage ID not provided in user_input.").

Definition no_agents : gmap string (agent unit) := ∅.

(** Stage 2 with a failing first agent and a succeeding second one. *)
Definition mixed_agents : gmap string (agent unit) :=
  <["data_harvester_agent" := failing_agent]>
    (<["geospatial_site_context_agent" := ok_agent]> ∅).

Definition raising_agents : gmap string (agent unit) :=
  <["data_harvester_agent" := raising_agent]>
    (<["geospatial_site_context_agent" := ok_agent]> ∅).

Definition intake : list (string * json) := [("project_name", JStr "Depot")].

Definition mgr : manager := new_manager (Some "p1") (Some intake) "uuid".

(** The project directory right after the manager was constructed. *)
Definition fresh_project : project_dir :=
  default empty_project (_initialize_project mgr ∅ !! "p1").

Definition start : machine unit :=
  {| proj := fresh_project; world := tt; log := [] |}.

Definition with_stage (i : nat) (fs : list file) (p : project_dir) : project_dir :=
  {| initial_project_data := initial_project_data p;
     stage_dirs := <[i := fs]> (stage_dirs p);
     approvals := approvals p |}.

Definition on_project (p : project_dir) : machine unit :=
  {| proj := p; world := tt; log := [] |}.

Definition render (f : file) : list artifact :=
  [{| artifact_name := file_name f; artifact_type := "json"; artifact_content := JNull |}].

Definition charter : file :=
  {| stem := "project_charter"; suffix := ".json"; content := "{}" |}.

Definition broken : file :=
  {| stem := "constraints"; suffix := ".json"; content := "{oops" |}.

(** Stage 1 has left a charter and a file that is not JSON. *)
Definition after_intake : machine unit :=
  on_project (with_stage 1 [charter; broken] fresh_project).

(** A file that holds the single byte 0xFF. *)
Definition undecodable : file :=
  {| stem := "site_scan"; suffix := ".json";
     content := String (Ascii.ascii_of_nat 255) "" |}.

(** Stage 1 has left a charter and a file that is not UTF-8. *)
Definition after_scan : machine unit :=
  on_project (with_stage 1 [charter; undecodable] fresh_project).

(** The manager the approval handler builds for the same project:
    [WorkflowManager(project_id="p1")], without intake payload. *)
Definition rebuilt_mgr : manager := new_manager (Some "p1") None "uuid".

(** Stage 1 holds artifacts named like the reserved keys. *)
Definition shadowing : machine unit :=
  on_project
    (with_stage 1
       [{| stem := "stage_id"; suffix := ".json"; content := "{}" |};
        {| stem := "initial_data"; suffix := ".json"; content := "null" |}]
       fresh_project).

Definition geospatial : file :=
  {| stem := "geospatial_analysis"; suffix := ".json"; content := "{}" |}.

(** An agent that writes its artifact into [stage_2]. *)
Definition writing_agent : agent unit :=
  fun _ _ w d => (w, <[2 := [geospatial]]> d, Returned success).

(** Stage 2 with a first agent that raises. *)
Definition raising_then_writing : gmap string (agent unit) :=
  <["data_harvester_agent" := raising_agent]>
    (<["geospatial_site_context_agent" := writing_agent]> ∅).

End Sample.

(** ** Vocabulary of the statements *)

(** The stages that name [g] as their trailing gate. *)
Definition declaring_stages (g : string) : list nat :=
  (filter (fun p => gate_after p.2 = Some g) WORKFLOW_STAGES).*1.

(** The machine after the logger received the events [l]. *)
Definition add_log {World} (l : list log_event) (m : machine World) : machine World :=
  {| proj := proj m; world := world m; log := (log m ++ l)%list |}.

(** The machine after an agent left the world [w] and the stage
    directories [d]. *)
Definition after_agent {World} (w : World) (d : gmap nat (list file))
    (m : machine World) : machine World :=
  {| proj := {| initial_project_data := initial_project_data (proj m);
                stage_dirs := d;
                approvals := approvals (proj m) |};
     world := w; log := log m |}.

(** The machine after [gate_<gate_id>_approval.json] was written. *)
Definition with_approval {World} (gate_id : string) (approval_data : json)
    (m : machine World) : machine World :=
  {| proj := {| initial_project_data := initial_project_data (proj m);
                stage_dirs := stage_dirs (proj m);
                approvals := <[gate_id := approval_data]> (approvals (proj m)) |};
     world := world m; log := log m |}.

(** Every gate that trails a stage from [s] on has an approval record. *)
Definition approved_from {World} (s : nat) (m : machine World) : Prop :=
  forall s' info g, s <= s' -> stage_lookup s' = Some info ->
    gate_after info = Some g -> is_Some (approvals (proj m) !! g).

(** No stage from [s] on has [g] as its trailing gate. *)
Definition not_gate_from (s : nat) (g : string) : Prop :=
  forall s' info, s <= s' -> stage_lookup s' = Some info -> gate_after info <> Some g.

(** Postconditions: [wp c Q m] says that running [c] from [m] ends with a
    result and a machine that satisfy [Q]. *)
Definition wp {World A} (c : M World A) (Q : res A -> machine World -> Prop)
    (m : machine World) : Prop :=
  Q (c m).2 (c m).1.

(** Results the stage body can end with: a value, a missing stage
    directory, the exception of an agent, or that of [json.load]. *)
Definition benign {A} (r : res A) : Prop :=
  match r with
  | Done _ | Raise (DirNotFound _) | Raise (AgentRaised _)
  | Raise (LoadFailed _) => True
  | _ => False
  end.

(** The value a JSON file contributes when [json.load] does not escape. *)
Definition parsed_or_empty (o : load_outcome) : json :=
  match o with
  | Loaded v => v
  | _ => JObj []
  end.

(** The files of the given stage directories, in the order
    [_gather_inputs_for_stage] reads them; [None] if a directory is missing. *)
Fixpoint files_of (stages : list nat) (dirs : gmap nat (list file)) : option (list file) :=
  match stages with
  | [] => Some []
  | i :: stages' =>
      match dirs !! i, files_of stages' dirs with
      | Some d, Some l => Some (d ++ l)%list
      | _, _ => None
      end
  end.

Definition prior_files (stage_id : nat) (dirs : gmap nat (list file)) : option (list file) :=
  files_of (seq 1 (stage_id - 1)) dirs.

Section Vocabulary.

Variable json_load : string -> load_outcome.

(** What one file does to the mapping, and the warning it causes. *)
Definition merge_file (g : gmap string json) (f : file) : gmap string json :=
  if decide (suffix f = ".json")
  then <[stem f := parsed_or_empty (json_load (content f))]> g
  else g.

Definition warning_of (f : file) : list log_event :=
  if decide (suffix f = ".json") then
    match json_load (content f) with
    | DecodeError => [LogBadJson (file_name f)]
    | _ => []
    end
  else [].

Definition merge_files (fs : list file) (g : gmap string json) : gmap string json :=
  foldl merge_file g fs.

Definition warnings_of (fs : list file) : list log_event :=
  flat_map warning_of fs.

(** [json.load] raises nothing but [JSONDecodeError] on the JSON files of
    the list. *)
Definition loadable (fs : list file) : Prop :=
  forall f message, f ∈ fs -> suffix f = ".json" ->
    json_load (content f) <> LoadRaised message.

End Vocabulary.

(** The stages whose body was entered, read off the log in order. *)
Definition stages_started (l : list log_event) : list nat :=
  omap (fun e => match e with LogStageStart k _ => Some k | _ => None end) l.

(** The stages the workflow goes through when it is started at [s]:
    every stage up to 17 from a stage below 18, stage 18 alone from 18. *)
Definition stages_from (s : nat) : list nat :=
  if decide (1 <= s <= 17) then seq s (18 - s)
  else if decide (s = 18) then [18] else [].

(** The engine kept the intake file and every approval record. *)
Definition keeps {World} (m m' : machine World) : Prop :=
  initial_project_data (proj m') = initial_project_data (proj m) /\
  forall g, is_Some (approvals (proj m) !! g) -> is_Some (approvals (proj m') !! g).

(** The log grew by entries that start a prefix of [expected], and all of
    it when the run returned. *)
Definition started_within {World A} (expected : list nat) (m : machine World)
    (r : res A) (m' : machine World) : Prop :=
  exists l, log m' = (log m ++ l)%list /\
    stages_started l `prefix_of` expected /\
    forall v, r = Done v -> stages_started l = expected.

Definition trace_post {World A} (expected : list nat) (m : machine World)
    (r : res A) (m' : machine World) : Prop :=
  keeps m m' /\ (forall k, r <> Raise (StageNotFound k)) /\
  started_within expected m r m'.

(** The log grew by entries that start no stage. *)
Definition quietly {World} (m m' : machine World) : Prop :=
  exists l, log m' = (log m ++ l)%list /\ stages_started l = [].

(** Two machines that differ at most in the record of gate [g]. *)
Definition same_but_gate {World} (g : string) (m1 m2 : machine World) : Prop :=
  world m1 = world m2 /\ log m1 = log m2 /\
  stage_dirs (proj m1) = stage_dirs (proj m2) /\
  initial_project_data (proj m1) = initial_project_data (proj m2) /\
  forall g', g' <> g -> approvals (proj m1) !! g' = approvals (proj m2) !! g'.

(** Two machines with the same project and the same world (the logs may
    differ). *)
Definition same_store {World} (m1 m2 : machine World) : Prop :=
  proj m1 = proj m2 /\ world m1 = world m2.

(** Two runs ended alike: the same result, on machines related by [R]. *)
Definition alike {World A} (R : machine World -> machine World -> Prop)
    (o1 o2 : machine World * res A) : Prop :=
  o1.2 = o2.2 /\ R o1.1 o2.1.

(** The last stage that is not locked: the [stage_before] of the pending
    gate, or 18 when no gate is pending. *)
Definition unlock_boundary (p : project_dir) : nat :=
  match _get_pending_gate p with
  | Some g => from_option stage_before 18 (gate_lookup g)
  | None => 18
  end.

(** A path parameter that names an entry of a directory: not empty and
    neither of the two names the file system resolves itself. *)
Definition plain_name (s : string) : Prop := s <> "" /\ s <> "." /\ s <> "..".

(** No registered agent ever raises. *)
Definition never_raises {World} (adk_system : gmap string (agent World)) : Prop :=
  forall agent_name a user_input pid w d,
    adk_system !! agent_name = Some a ->
    exists result, (a user_input pid w d).2 = Returned result.

(** The agents of the list that are registered. *)
Definition registered {World} (adk_system : gmap string (agent World))
    (agent_names : list string) : list string :=
  filter (fun n => is_Some (adk_system !! n)) agent_names.

(** * Properties *)

Open Scope list_scope.

(** ** Facts about the two tables *)

Lemma assoc_elem {K V} `{EqDecision K} (k : K) (v : V) (d : list (K * V)) :
  assoc k d = Some v -> (k, v) ∈ d.
Proof.
  induction d as [|[k' v'] d IH]; simpl; [discriminate|].
  destruct (decide (k' = k)) as [->|Hne].
  - intros [= ->]. apply list_elem_of_here.
  - intros H. apply list_elem_of_further. auto.
Qed.

Lemma assoc_None {K V} `{EqDecision K} (k : K) (d : list (K * V)) :
  assoc k d = None <-> k ∉ d.*1.
Proof.
  induction d as [|[k' v'] d IH]; simpl.
  - split; [intros _; apply not_elem_of_nil | done].
  - rewrite not_elem_of_cons. destruct (decide (k' = k)) as [->|Hne].
    + split; [discriminate | intros [? _]; done].
    + rewrite IH. split; [intros ?; split; [congruence | done] | intros [_ ?]; done].
Qed.

(** Case analysis on a declared stage: one goal per row of the table. *)
Ltac stage_cases H :=
  apply assoc_elem in H; apply list_elem_of_In in H; simpl in H;
  repeat (destruct H as [H|H]; [inversion H; subst; clear H|]);
  [..|contradiction].

Ltac gate_cases H := stage_cases H.

Lemma stage_lookup_range s info :
  stage_lookup s = Some info -> 1 <= s <= 18.
Proof. intros H. stage_cases H; lia. Qed.

Lemma stage_lookup_in_range s :
  1 <= s <= 18 -> is_Some (stage_lookup s).
Proof.
  intros [H1 H2].
  do 19 (destruct s as [|s]; [first [lia | vm_compute; eauto]|]). lia.
Qed.

Lemma stage_declared_spec s : stage_declared s = true <-> 1 <= s <= 18.
Proof.
  unfold stage_declared. rewrite bool_decide_eq_true. split.
  - intros [info H]. eapply stage_lookup_range; eauto.
  - apply stage_lookup_in_range.
Qed.

Lemma stage_declared_false s : stage_declared s = false <-> ~ (1 <= s <= 18).
Proof.
  rewrite <- stage_declared_spec. destruct (stage_declared s); split; try done.
Qed.

(** A trailing gate is declared, and it never points before its stage. *)
Lemma gate_after_declared s info g :
  stage_lookup s = Some info -> gate_after info = Some g ->
  exists gi, gate_lookup g = Some gi /\ s <= stage_before gi.
Proof.
  intros H Hg. stage_cases H; simpl in Hg; try discriminate;
    injection Hg as <-; eexists; (split; [vm_compute; reflexivity | simpl; lia]).
Qed.

(** The stages a gate jumps over when the workflow resumes have no gate. *)
Lemma no_gate_between s info g gi s' info' :
  stage_lookup s = Some info -> gate_after info = Some g ->
  gate_lookup g = Some gi ->
  s < s' <= stage_before gi -> stage_lookup s' = Some info' ->
  gate_after info' = None.
Proof.
  intros H Hg Hgi Hs' H'.
  stage_cases H; simpl in Hg; try discriminate; injection Hg as <-;
    vm_compute in Hgi; injection Hgi as <-; simpl in Hs'; try lia.
  assert (s' = 18) as -> by lia. vm_compute in H'. by injection H' as <-.
Qed.

(** No stage after the one a gate resumes from declares that gate again. *)
Lemma gate_not_after g gi s info :
  gate_lookup g = Some gi -> stage_lookup s = Some info ->
  gate_after info = Some g -> s <= stage_before gi.
Proof.
  intros Hgi H Hg.
  stage_cases H; simpl in Hg; try discriminate; injection Hg as <-;
    vm_compute in Hgi; injection Hgi as <-; simpl; lia.
Qed.

(** Every gate is the trailing gate of some stage. *)
Lemma gate_has_stage g gi :
  gate_lookup g = Some gi ->
  exists s info, stage_lookup s = Some info /\ gate_after info = Some g.
Proof.
  intros H. gate_cases H.
  - exists 1; eexists; split; [vm_compute; reflexivity | reflexivity].
  - exists 4; eexists; split; [vm_compute; reflexivity | reflexivity].
  - exists 6; eexists; split; [vm_compute; reflexivity | reflexivity].
  - exists 8; eexists; split; [vm_compute; reflexivity | reflexivity].
  - exists 10; eexists; split; [vm_compute; reflexivity | reflexivity].
  - exists 12; eexists; split; [vm_compute; reflexivity | reflexivity].
  - exists 17; eexists; split; [vm_compute; reflexivity | reflexivity].
Qed.

(** C4. The stage ids are 1..18 without gaps and every gate is the trailing
    gate of exactly one stage, but the [stage_before] field matches the
    declaring stage for G0..G5 only: G6 trails stage 17 while its
    [stage_before] is 18, and stage 18 declares no gate. *)
Theorem static_graph_G6_mismatch :
  WORKFLOW_STAGES.*1 = seq 1 18 /\
  Forall (fun g => exists s, declaring_stages g = [s]) (DECISION_GATES.*1) /\
  Forall (fun p => p.1 <> "G6" -> declaring_stages p.1 = [stage_before p.2])
    DECISION_GATES /\
  declaring_stages "G6" = [17] /\
  stage_before <$> gate_lookup "G6" = Some 18 /\
  gate_after <$> stage_lookup 18 = Some None.
Proof.
  split; [reflexivity|]. split.
  { repeat (constructor; [eexists; vm_compute; reflexivity|]). constructor. }
  split.
  { repeat (constructor; [first [intros _; vm_compute; reflexivity | simpl; congruence]|]).
    constructor. }
  repeat split; vm_compute; reflexivity.
Qed.

(** ** The pending gate *)

Lemma first_unapproved_Some gates p g :
  first_unapproved gates p = Some g <->
  exists i gi, gates !! i = Some (g, gi) /\ approvals p !! g = None /\
    forall j g' gi', (j < i)%nat -> gates !! j = Some (g', gi') ->
      is_Some (approvals p !! g').
Proof.
  induction gates as [|[g0 gi0] gates IH]; simpl.
  - split; [discriminate | intros (i & gi & H & _); by rewrite lookup_nil in H].
  - destruct (approvals p !! g0) as [a|] eqn:Hg0.
    + rewrite IH. split.
      * intros (i & gi & Hi & Hn & Hlt). exists (S i), gi. split; [done|]. split; [done|].
        intros [|j] g' gi' Hj Hl; simpl in Hl.
        -- injection Hl as <- <-. rewrite Hg0. eauto.
        -- eapply Hlt; [|done]. lia.
      * intros ([|i] & gi & Hi & Hn & Hlt); simpl in Hi.
        -- injection Hi as -> ->. congruence.
        -- exists i, gi. split; [done|]. split; [done|].
           intros j g' gi' Hj Hl. apply (Hlt (S j) g' gi'); [lia | done].
    + split.
      * intros [= <-]. exists 0, gi0. split; [done|]. split; [done|]. intros; lia.
      * intros ([|i] & gi & Hi & Hn & Hlt); simpl in Hi.
        -- by injection Hi as -> ->.
        -- destruct (Hlt 0 g0 gi0) as [a Ha]; [lia | done | congruence].
Qed.

Lemma first_unapproved_None gates p :
  first_unapproved gates p = None <->
  forall g gi, (g, gi) ∈ gates -> is_Some (approvals p !! g).
Proof.
  induction gates as [|[g0 gi0] gates IH]; simpl.
  - split; [intros _ g gi H; by apply elem_of_nil in H | done].
  - destruct (approvals p !! g0) as [a|] eqn:Hg0.
    + rewrite IH. split.
      * intros H g gi [[= -> ->]|Hin]%elem_of_cons; [rewrite Hg0; eauto | eauto].
      * intros H g gi Hin. apply (H g gi). by apply list_elem_of_further.
    + split; [discriminate|]. intros H.
      destruct (H g0 gi0) as [a Ha]; [apply list_elem_of_here | congruence].
Qed.

(** C5. [_get_pending_gate] returns the first gate, in the order of
    [DECISION_GATES], that has no approval record, and returns [None]
    exactly when every declared gate has one. *)
Theorem pending_gate_first_unapproved (p : project_dir) :
  (forall g,
     _get_pending_gate p = Some g <->
     exists i gi, DECISION_GATES !! i = Some (g, gi) /\
       approvals p !! g = None /\
       forall j g' gi', (j < i)%nat -> DECISION_GATES !! j = Some (g', gi') ->
         is_Some (approvals p !! g')) /\
  (_get_pending_gate p = None <->
     forall g, is_Some (gate_lookup g) -> is_Some (approvals p !! g)).
Proof.
  split.
  - intros g. apply first_unapproved_Some.
  - unfold _get_pending_gate. rewrite first_unapproved_None. split.
    + intros H g [gi Hgi]. apply (H g gi). by apply assoc_elem.
    + intros H g gi Hin. apply H.
      destruct (gate_lookup g) as [gi'|] eqn:Hl; [eauto|].
      apply assoc_None in Hl. exfalso. apply Hl.
      apply list_elem_of_fmap. by exists (g, gi).
Qed.

(** ** Rules for postconditions *)

Section Rules.

Context {World : Type}.
Implicit Types m : machine World.

Lemma add_log_nil m : add_log [] m = m.
Proof. destruct m. unfold add_log. simpl. by rewrite app_nil_r. Qed.

Lemma add_log_app l1 l2 m : add_log l2 (add_log l1 m) = add_log (l1 ++ l2) m.
Proof. unfold add_log. simpl. by rewrite <- app_assoc. Qed.

Lemma wp_ret {A} (a : A) Q m : Q (Done a) m -> wp (ret a) Q m.
Proof. done. Qed.

Lemma wp_raise {A} e (Q : res A -> machine World -> Prop) m :
  Q (Raise e) m -> wp (raise e) Q m.
Proof. done. Qed.

Lemma wp_emit e Q m : Q (Done tt) (add_log [e] m) -> wp (emit e) Q m.
Proof. done. Qed.

Lemma bind_emit {B} e (k : unit -> M World B) m :
  bind (emit e) k m = k tt (add_log [e] m).
Proof. reflexivity. Qed.

Lemma wp_bind {A B} (c : M World A) (k : A -> M World B) Q m :
  wp c (fun r m1 =>
          match r with
          | Done a => wp (k a) Q m1
          | Raise e => Q (Raise e) m1
          | OutOfFuel => Q OutOfFuel m1
          end) m ->
  wp (bind c k) Q m.
Proof. unfold wp, bind. destruct (c m) as [m1 [a|e|]]; done. Qed.

Lemma wp_conseq {A} (c : M World A) (Q Q' : res A -> machine World -> Prop) m :
  wp c Q m -> (forall r m', Q r m' -> Q' r m') -> wp c Q' m.
Proof. unfold wp. auto. Qed.

Lemma bind_ext {A B} (c : M World A) (k1 k2 : A -> M World B) m :
  (forall a m1, k1 a m1 = k2 a m1) -> bind c k1 m = bind c k2 m.
Proof. intros H. unfold bind. destruct (c m) as [m1 [a|e|]]; auto. Qed.

Lemma bind_Done {A B} (c : M World A) (k : A -> M World B) m m' b :
  bind c k m = (m', Done b) ->
  exists m1 a, c m = (m1, Done a) /\ k a m1 = (m', Done b).
Proof.
  unfold bind. destruct (c m) as [m1 [a|e|]]; try discriminate. eauto.
Qed.

End Rules.

(** ** Input aggregation *)

Section Aggregation.

Context {World : Type}.
Variable json_load : string -> load_outcome.
Variable self : manager.
Implicit Types m : machine World.

Lemma loadable_cons f fs :
  loadable json_load (f :: fs) ->
  (suffix f = ".json" -> forall message, json_load (content f) <> LoadRaised message) /\
  loadable json_load fs.
Proof.
  intros H. split.
  - intros Hs message. apply H; [apply list_elem_of_here | done].
  - intros f' message Hf'. apply H. by apply list_elem_of_further.
Qed.

Lemma loadable_app l1 l2 :
  loadable json_load (l1 ++ l2) <-> loadable json_load l1 /\ loadable json_load l2.
Proof.
  unfold loadable. split.
  - intros H. split; intros f message Hf; apply H; apply elem_of_app; auto.
  - intros [H1 H2] f message [Hf|Hf]%elem_of_app; auto.
Qed.

Lemma gather_file_eq f g m :
  (suffix f = ".json" -> forall message, json_load (content f) <> LoadRaised message) ->
  gather_file json_load f g m =
  (add_log (warning_of json_load f) m, Done (merge_file json_load g f)).
Proof.
  intros Hload. unfold gather_file, warning_of, merge_file.
  destruct (decide (suffix f = ".json")) as [Hs|]; [|by rewrite add_log_nil].
  specialize (Hload Hs).
  destruct (json_load (content f)) as [v| |message];
    [by rewrite add_log_nil | done | by destruct (Hload message)].
Qed.

Lemma gather_file_raised f g m message :
  suffix f = ".json" -> json_load (content f) = LoadRaised message ->
  gather_file json_load f g m = (m, Raise (LoadFailed message)).
Proof. intros Hs Hl. unfold gather_file. by rewrite decide_True, Hl. Qed.

Lemma gather_files_eq fs g m :
  loadable json_load fs ->
  gather_files json_load fs g m =
  (add_log (warnings_of json_load fs) m, Done (merge_files json_load fs g)).
Proof.
  revert g m. induction fs as [|f fs IH]; intros g m Hload; simpl.
  - by rewrite add_log_nil.
  - apply loadable_cons in Hload as [Hf Hfs].
    unfold bind. rewrite gather_file_eq, IH, add_log_app by done. done.
Qed.

(** The first file on which [json.load] raises something else than
    [JSONDecodeError] ends the loop with that exception. *)
Lemma gather_files_raised pre f post g m message :
  loadable json_load pre ->
  suffix f = ".json" -> json_load (content f) = LoadRaised message ->
  gather_files json_load (pre ++ f :: post) g m =
  (add_log (warnings_of json_load pre) m, Raise (LoadFailed message)).
Proof.
  revert g m. induction pre as [|f0 pre IH]; intros g m Hload Hs Hl; simpl.
  - unfold bind. rewrite (gather_file_raised f g m message) by done.
    by rewrite add_log_nil.
  - apply loadable_cons in Hload as [Hf Hfs].
    unfold bind at 1. rewrite gather_file_eq by done.
    rewrite IH by done. by rewrite add_log_app.
Qed.

Lemma gather_stages_eq stages g m files :
  files_of stages (stage_dirs (proj m)) = Some files ->
  loadable json_load files ->
  gather_stages json_load stages g m =
  (add_log (warnings_of json_load files) m, Done (merge_files json_load files g)).
Proof.
  revert g m files. induction stages as [|i stages IH]; intros g m files; simpl.
  - intros [= <-] _. by rewrite add_log_nil.
  - unfold bind at 1, iterdir.
    destruct (stage_dirs (proj m) !! i) as [d|] eqn:Hd; [|discriminate].
    destruct (files_of stages (stage_dirs (proj m))) as [l|] eqn:Hl; [|discriminate].
    intros [= <-] [Hd' Hl']%loadable_app. unfold bind. rewrite gather_files_eq by done.
    rewrite (IH _ _ l); [|done|done].
    rewrite add_log_app. unfold warnings_of, merge_files.
    by rewrite flat_map_app, foldl_app.
Qed.

Lemma files_of_Some stages dirs :
  (forall i, i ∈ stages -> is_Some (dirs !! i)) -> is_Some (files_of stages dirs).
Proof.
  induction stages as [|i stages IH]; intros H; simpl; [eauto|].
  destruct (H i) as [d ->]; [apply list_elem_of_here|].
  destruct IH as [l ->]; [|eauto].
  intros j Hj. apply H. by apply list_elem_of_further.
Qed.

Lemma elem_of_files_of stages dirs files f :
  files_of stages dirs = Some files ->
  f ∈ files <-> exists i d, i ∈ stages /\ dirs !! i = Some d /\ f ∈ d.
Proof.
  revert files. induction stages as [|i stages IH]; intros files; simpl.
  - intros [= <-]. split; [intros H; by apply elem_of_nil in H|].
    intros (i & d & H & _). by apply elem_of_nil in H.
  - destruct (dirs !! i) as [d|] eqn:Hd; [|discriminate].
    destruct (files_of stages dirs) as [l|] eqn:Hl; [|discriminate].
    intros [= <-]. rewrite elem_of_app, (IH l eq_refl). split.
    + intros [Hf|(j & d' & Hj & Hd' & Hf)].
      * exists i, d. split; [apply list_elem_of_here|done].
      * exists j, d'. split; [by apply list_elem_of_further|done].
    + intros (j & d' & [->|Hj]%elem_of_cons & Hd' & Hf).
      * left. congruence.
      * right. eauto.
Qed.

Lemma files_of_agree stages dirs1 dirs2 :
  (forall i, i ∈ stages -> dirs1 !! i = dirs2 !! i) ->
  files_of stages dirs1 = files_of stages dirs2.
Proof.
  induction stages as [|i stages IH]; intros H; simpl; [done|].
  rewrite (H i), IH; [done| |apply list_elem_of_here].
  intros j Hj. apply H. by apply list_elem_of_further.
Qed.

Lemma elem_of_seq_prior i k : i ∈ seq 1 (k - 1) <-> 1 <= i < k.
Proof. rewrite elem_of_seq. lia. Qed.

(** The whole of [_gather_inputs_for_stage] when the earlier stage
    directories exist. *)
Lemma gather_inputs_eq k m files :
  prior_files k (stage_dirs (proj m)) = Some files ->
  loadable json_load files ->
  _gather_inputs_for_stage json_load self k m =
  (add_log (LogGathering k :: warnings_of json_load files) m,
   Done (merge_files json_load files (initial_inputs self k))).
Proof.
  intros H Hload. unfold _gather_inputs_for_stage, bind, emit.
  fold (add_log [LogGathering k] m).
  rewrite (gather_stages_eq _ _ _ files); [|done|done].
  by rewrite add_log_app.
Qed.

End Aggregation.

Section Merging.

Variable json_load : string -> load_outcome.

Definition is_json_with_stem (key : string) (f : file) : Prop :=
  suffix f = ".json" /\ stem f = key.

#[local] Instance is_json_with_stem_dec key f : Decision (is_json_with_stem key f).
Proof. unfold is_json_with_stem. apply _. Defined.

(** Last writer wins: a key holds what the last JSON file with that stem
    contributed, or what the mapping held before if there is none. *)
Lemma merge_files_lookup fs g key :
  merge_files json_load fs g !! key =
  match last (filter (is_json_with_stem key) fs) with
  | Some f => Some (parsed_or_empty (json_load (content f)))
  | None => g !! key
  end.
Proof.
  induction fs as [|f fs IH] using rev_ind; [done|].
  unfold merge_files in *. rewrite foldl_app, filter_app. simpl.
  unfold merge_file at 1. rewrite filter_cons, filter_nil.
  destruct (decide (is_json_with_stem key f)) as [[Hs Hk]|Hn].
  - rewrite last_snoc. rewrite decide_True by done. subst key.
    by rewrite lookup_insert_eq.
  - rewrite app_nil_r, <- IH.
    destruct (decide (suffix f = ".json")) as [Hs|]; [|done].
    rewrite lookup_insert_ne; [done|]. intros Hk. apply Hn. by split.
Qed.

Lemma last_filter_None {A} (P : A -> Prop) `{forall x, Decision (P x)} (l : list A) :
  last (filter P l) = None <-> forall x, x ∈ l -> ~ P x.
Proof.
  rewrite last_None. split.
  - intros Hnil x Hx HP.
    assert (x ∈ filter P l) as Hin by (apply list_elem_of_filter; done).
    rewrite Hnil in Hin. by apply elem_of_nil in Hin.
  - intros Hall. destruct (filter P l) as [|x l'] eqn:Hf; [done|].
    assert (x ∈ filter P l) as Hin by (rewrite Hf; apply list_elem_of_here).
    apply list_elem_of_filter in Hin as [HP Hx]. by destruct (Hall x Hx).
Qed.

Lemma last_filter_Some {A} (P : A -> Prop) `{forall x, Decision (P x)} (l : list A) x :
  last (filter P l) = Some x -> x ∈ l /\ P x.
Proof.
  intros Hl. assert (x ∈ filter P l) as Hin.
  { destruct (filter P l) as [|y l'] using rev_ind; [done|].
    rewrite last_snoc in Hl. injection Hl as ->. apply elem_of_app. right.
    apply list_elem_of_here. }
  apply list_elem_of_filter in Hin as [HP Hx]. done.
Qed.

Lemma merge_files_untouched fs g key :
  (forall f, f ∈ fs -> suffix f = ".json" -> stem f <> key) ->
  merge_files json_load fs g !! key = g !! key.
Proof.
  intros H. rewrite merge_files_lookup.
  destruct (last (filter (is_json_with_stem key) fs)) as [f|] eqn:Hl; [|done].
  apply last_filter_Some in Hl as [Hin [Hs Hk]]. by destruct (H f Hin Hs).
Qed.

Lemma merge_files_entry fs g f :
  f ∈ fs -> suffix f = ".json" -> is_Some (merge_files json_load fs g !! stem f).
Proof.
  intros Hin Hs. rewrite merge_files_lookup.
  destruct (last (filter (is_json_with_stem (stem f)) fs)) as [f'|] eqn:Hl; [eauto|].
  pose proof (proj1 (last_filter_None _ _) Hl) as Hno. destruct (Hno f Hin). by split.
Qed.

Lemma merge_files_keeps fs g key :
  is_Some (g !! key) -> is_Some (merge_files json_load fs g !! key).
Proof.
  intros Hg. rewrite merge_files_lookup.
  destruct (last (filter (is_json_with_stem key) fs)); eauto.
Qed.

Lemma merge_files_origin fs g key :
  is_Some (merge_files json_load fs g !! key) ->
  is_Some (g !! key) \/ exists f, f ∈ fs /\ suffix f = ".json" /\ stem f = key.
Proof.
  rewrite merge_files_lookup.
  destruct (last (filter (is_json_with_stem key) fs)) as [f|] eqn:Hl; [|by left].
  intros _. right. apply last_filter_Some in Hl as [Hin [Hs Hk]]. eauto.
Qed.

Lemma merge_files_malformed fs g f :
  f ∈ fs -> suffix f = ".json" ->
  (forall f', f' ∈ fs -> suffix f' = ".json" -> stem f' = stem f ->
     json_load (content f') = DecodeError) ->
  merge_files json_load fs g !! stem f = Some (JObj []).
Proof.
  intros Hin Hs Hall. rewrite merge_files_lookup.
  destruct (last (filter (is_json_with_stem (stem f)) fs)) as [f'|] eqn:Hl.
  - apply last_filter_Some in Hl as [Hin' [Hs' Hk']].
    by rewrite (Hall f' Hin' Hs' Hk').
  - pose proof (proj1 (last_filter_None _ _) Hl) as Hno. destruct (Hno f Hin). by split.
Qed.

Lemma warnings_of_malformed fs f :
  f ∈ fs -> suffix f = ".json" -> json_load (content f) = DecodeError ->
  LogBadJson (file_name f) ∈ warnings_of json_load fs.
Proof.
  intros Hin Hs Hnone. unfold warnings_of. apply list_elem_of_In, in_flat_map.
  exists f. split; [by apply list_elem_of_In|].
  unfold warning_of. rewrite decide_True by done. rewrite Hnone. by left.
Qed.

End Merging.

Section AggregationClaims.

Context {World : Type}.
Variable json_load : string -> load_outcome.
Variable self : manager.
Implicit Types m : machine World.

Lemma prior_files_exist k m :
  (forall i, 1 <= i < k -> is_Some (stage_dirs (proj m) !! i)) ->
  is_Some (prior_files k (stage_dirs (proj m))).
Proof.
  intros H. apply files_of_Some. intros i Hi. apply H. by apply elem_of_seq_prior.
Qed.

Lemma elem_of_prior_files k dirs files f :
  prior_files k dirs = Some files ->
  f ∈ files <-> exists i d, 1 <= i < k /\ dirs !! i = Some d /\ f ∈ d.
Proof.
  intros H. rewrite (elem_of_files_of _ _ _ _ H). split.
  - intros (i & d & Hi & Hd & Hf). exists i, d. by rewrite <- elem_of_seq_prior.
  - intros (i & d & Hi & Hd & Hf). exists i, d. by rewrite elem_of_seq_prior.
Qed.

Lemma loadable_prior_files k m files :
  prior_files k (stage_dirs (proj m)) = Some files ->
  (forall i d f message, 1 <= i < k -> stage_dirs (proj m) !! i = Some d -> f ∈ d ->
     suffix f = ".json" -> json_load (content f) <> LoadRaised message) ->
  loadable json_load files.
Proof.
  intros Hfiles H f message Hf Hs.
  apply (elem_of_prior_files k _ files f Hfiles) in Hf as (i & d & Hi & Hd & Hf).
  eauto.
Qed.

(** C3, as the code has it. When the directories of stages 1..k-1 exist
    and [json.load] raises nothing but [JSONDecodeError] on their JSON
    files, the input mapping of stage k has an entry under the stem of every
    JSON file of those directories, has no key that does not come from them
    or from the two reserved keys, does not depend on the directories of
    stage k and later, and always has the keys [initial_data] and
    [stage_id]. Provided no JSON file of an earlier stage has that stem,
    [stage_id] holds the stage number and [initial_data] holds the payload
    the manager object was constructed with: the intake payload for a
    manager constructed with one, the empty mapping for a manager
    constructed from a project id alone. *)
Theorem gather_inputs_prior_stages_only k m :
  (forall i, 1 <= i < k -> is_Some (stage_dirs (proj m) !! i)) ->
  (forall i d f message, 1 <= i < k -> stage_dirs (proj m) !! i = Some d -> f ∈ d ->
     suffix f = ".json" -> json_load (content f) <> LoadRaised message) ->
  (exists m' inputs,
    _gather_inputs_for_stage json_load self k m = (m', Done inputs) /\
    (forall i d f, 1 <= i < k -> stage_dirs (proj m) !! i = Some d -> f ∈ d ->
       suffix f = ".json" -> is_Some (inputs !! stem f)) /\
    (forall key, is_Some (inputs !! key) ->
       key = "initial_data" \/ key = "stage_id" \/
       exists i d f, 1 <= i < k /\ stage_dirs (proj m) !! i = Some d /\ f ∈ d /\
         suffix f = ".json" /\ stem f = key) /\
    (forall m2 : machine World,
       (forall i, 1 <= i < k ->
          stage_dirs (proj m2) !! i = stage_dirs (proj m) !! i) ->
       (_gather_inputs_for_stage json_load self k m2).2 = Done inputs) /\
    is_Some (inputs !! "initial_data") /\
    is_Some (inputs !! "stage_id") /\
    ((forall i d f, 1 <= i < k -> stage_dirs (proj m) !! i = Some d -> f ∈ d ->
        suffix f = ".json" -> stem f <> "initial_data") ->
     inputs !! "initial_data" = Some (JObj (initial_data self))) /\
    ((forall i d f, 1 <= i < k -> stage_dirs (proj m) !! i = Some d -> f ∈ d ->
        suffix f = ".json" -> stem f <> "stage_id") ->
     inputs !! "stage_id" = Some (JNum (Z.of_nat k)))) /\
  (forall id payload uuid, initial_data (new_manager id (Some payload) uuid) = payload) /\
  (forall id uuid, initial_data (new_manager id None uuid) = []).
Proof.
  intros Hdirs Hloads. split; [|done].
  destruct (prior_files_exist k m Hdirs) as [files Hfiles].
  pose proof (loadable_prior_files k m files Hfiles Hloads) as Hload.
  pose proof (fun f => elem_of_prior_files k _ files f Hfiles) as Hin.
  eexists _, _. split; [by apply gather_inputs_eq|].
  assert (initial_inputs self k !! "initial_data" = Some (JObj (initial_data self))) as Hid.
  { unfold initial_inputs. rewrite lookup_insert_ne by done. apply lookup_insert_eq. }
  assert (initial_inputs self k !! "stage_id" = Some (JNum (Z.of_nat k))) as Hsid.
  { unfold initial_inputs. apply lookup_insert_eq. }
  repeat split.
  - intros i d f Hi Hd Hf Hs. apply merge_files_entry; [|done].
    apply Hin. eauto.
  - intros key [Hinit|(f & Hf & Hs & Hk)]%merge_files_origin.
    + unfold initial_inputs in Hinit.
      destruct (decide (key = "stage_id")) as [->|Hne1]; [auto|].
      rewrite lookup_insert_ne in Hinit by done.
      destruct (decide (key = "initial_data")) as [->|Hne2]; [auto|].
      rewrite lookup_insert_ne, lookup_empty in Hinit by done.
      by destruct Hinit.
    + right; right. apply Hin in Hf as (i & d & Hi & Hd & Hf). eauto 10.
  - intros m2 Hagree. rewrite (gather_inputs_eq _ _ _ _ files); [done| |done].
    unfold prior_files in *. rewrite <- Hfiles. apply files_of_agree.
    intros i Hi. apply Hagree. by apply elem_of_seq_prior.
  - apply merge_files_keeps. rewrite Hid. eauto.
  - apply merge_files_keeps. rewrite Hsid. eauto.
  - intros Hno. rewrite merge_files_untouched; [done|].
    intros f Hf Hs. apply Hin in Hf as (i & d & Hi & Hd & Hf). eauto.
  - intros Hno. rewrite merge_files_untouched; [done|].
    intros f Hf Hs. apply Hin in Hf as (i & d & Hi & Hd & Hf). eauto.
Qed.


(** One malformed file, on its own: the stem is bound to the empty object,
    the warning is logged, and the loop goes on with the next file. *)
Lemma gather_files_malformed_step f fs g m :
  suffix f = ".json" -> json_load (content f) = DecodeError ->
  gather_files json_load (f :: fs) g m =
  gather_files json_load fs (<[stem f := JObj []]> g)
    (add_log [LogBadJson (file_name f)] m).
Proof.
  intros Hs Hbad. simpl. unfold bind at 1. rewrite gather_file_eq.
  - unfold warning_of, merge_file. rewrite !decide_True by done. by rewrite Hbad.
  - intros _ message. by rewrite Hbad.
Qed.

Lemma loadable_dec fs : loadable json_load fs \/ ~ loadable json_load fs.
Proof.
  induction fs as [|f fs [IH|IH]].
  - left. intros f message Hf. by apply elem_of_nil in Hf.
  - destruct (decide (suffix f = ".json")) as [Hs|Hs].
    + destruct (json_load (content f)) as [v| |message] eqn:Hl.
      * left. intros f' message' [->|Hf']%elem_of_cons Hs'; [congruence | by apply IH].
      * left. intros f' message' [->|Hf']%elem_of_cons Hs'; [congruence | by apply IH].
      * right. intros H. by apply (H f message); [apply list_elem_of_here|..].
    + left. intros f' message' [->|Hf']%elem_of_cons Hs'; [done | by apply IH].
  - right. intros H. apply IH. by apply loadable_cons in H as [_ H].
Qed.

(** A file on which [json.load] raises anything else than
    [JSONDecodeError] ends the loop with that exception. *)
Lemma gather_files_failed fs g m :
  ~ loadable json_load fs ->
  exists l f message,
    f ∈ fs /\ suffix f = ".json" /\ json_load (content f) = LoadRaised message /\
    gather_files json_load fs g m = (add_log l m, Raise (LoadFailed message)).
Proof.
  revert g m. induction fs as [|f fs IH]; intros g m Hbad.
  { destruct Hbad. intros f message Hf. by apply elem_of_nil in Hf. }
  assert ((suffix f = ".json" /\ exists message,
             json_load (content f) = LoadRaised message) \/
          (suffix f = ".json" ->
             forall message, json_load (content f) <> LoadRaised message))
    as [[Hs [message Hl]]|Hf].
  { destruct (decide (suffix f = ".json")) as [Hs|Hs]; [|by right].
    destruct (json_load (content f)) as [v| |message]; [by right | by right |].
    left. eauto. }
  - exists [], f, message. rewrite add_log_nil.
    split; [apply list_elem_of_here|]. split; [done|]. split; [done|].
    simpl. unfold bind. by rewrite (gather_file_raised json_load f g m message).
  - 
    assert (~ loadable json_load fs) as Hfs.
    { intros H. apply Hbad. intros f' message [->|Hf']%elem_of_cons Hs'; [auto|].
      by apply H. }
    simpl. unfold bind at 1. rewrite gather_file_eq by done.
    destruct (IH (merge_file json_load g f) (add_log (warning_of json_load f) m) Hfs)
      as (l & f' & message & Hin & Hs & Hl & Heq).
    rewrite Heq, add_log_app. exists (warning_of json_load f ++ l), f', message.
    split; [by apply list_elem_of_further|]. done.
Qed.

Lemma gather_stages_failed stages g m files :
  files_of stages (stage_dirs (proj m)) = Some files ->
  ~ loadable json_load files ->
  exists l f message,
    f ∈ files /\ suffix f = ".json" /\ json_load (content f) = LoadRaised message /\
    gather_stages json_load stages g m = (add_log l m, Raise (LoadFailed message)).
Proof.
  revert g m files. induction stages as [|i stages IH]; intros g m files; simpl.
  { intros [= <-] Hbad. destruct Hbad. intros f message Hf. by apply elem_of_nil in Hf. }
  unfold bind at 1, iterdir.
  destruct (stage_dirs (proj m) !! i) as [d|] eqn:Hd; [|discriminate].
  destruct (files_of stages (stage_dirs (proj m))) as [l|] eqn:Hl; [|discriminate].
  intros [= <-] Hbad. destruct (loadable_dec d) as [Hdok|Hdbad].
  - assert (~ loadable json_load l) as Hlbad.
    { intros H. apply Hbad. by apply loadable_app. }
    unfold bind at 1. rewrite gather_files_eq by done.
    destruct (IH (merge_files json_load d g) (add_log (warnings_of json_load d) m) l)
      as (l' & f & message & Hin & Hs & Hload & Heq); [done | done |].
    rewrite Heq, add_log_app. exists (warnings_of json_load d ++ l'), f, message.
    split; [apply elem_of_app; by right|]. done.
  - destruct (gather_files_failed d g m Hdbad) as (l' & f & message & Hin & Hs & Hload & Heq).
    unfold bind at 1. rewrite Heq. exists l', f, message.
    split; [apply elem_of_app; by left|]. done.
Qed.

Lemma gather_inputs_failed k m files :
  prior_files k (stage_dirs (proj m)) = Some files ->
  ~ loadable json_load files ->
  exists l f message,
    f ∈ files /\ suffix f = ".json" /\ json_load (content f) = LoadRaised message /\
    _gather_inputs_for_stage json_load self k m = (add_log l m, Raise (LoadFailed message)).
Proof.
  intros Hfiles Hbad. unfold _gather_inputs_for_stage, bind, emit.
  fold (add_log [LogGathering k] m).
  destruct (gather_stages_failed (seq 1 (k - 1)) (initial_inputs self k)
              (add_log [LogGathering k] m) files Hfiles Hbad)
    as (l & f & message & Hin & Hs & Hload & Heq).
  rewrite Heq, add_log_app. eauto 10.
Qed.

End AggregationClaims.

(** ** Running a stage *)

Section Running.

Context {World : Type}.
Variable json_load : string -> load_outcome.
Variable adk_system : gmap string (agent World).
Variable self : manager.
Implicit Types m : machine World.

Lemma process_request_eq a user_input m :
  process_request self a user_input m =
  match a user_input (project_id self) (world m) (stage_dirs (proj m)) with
  | (w, d, Returned r) => (after_agent w d m, Done r)
  | (w, d, Raised msg) => (after_agent w d m, Raise (AgentRaised msg))
  end.
Proof.
  unfold process_request.
  destruct (a user_input (project_id self) (world m) (stage_dirs (proj m)))
    as [[w d] [r|msg]]; done.
Qed.

Lemma wp_write_approval g data Q m :
  Q (Done tt) (with_approval g data m) -> wp (write_approval g data) Q m.
Proof. done. Qed.

Lemma run_agents_wp names current_input acc m :
  wp (run_agents adk_system self current_input names acc)
     (fun r m' => approvals (proj m') = approvals (proj m) /\ benign r) m.
Proof.
  revert acc m. induction names as [|n names IH]; intros acc m; simpl.
  - by apply wp_ret.
  - destruct (adk_system !! n) as [a|].
    + apply wp_bind. unfold wp at 1. rewrite process_request_eq.
      destruct (a _ (project_id self) (world m) (stage_dirs (proj m)))
        as [[w d] [r|msg]]; simpl; [|done].
      eapply wp_conseq; [apply IH|]. by intros r' m' [-> ?].
    + apply wp_bind, wp_emit. eapply wp_conseq; [apply IH|]. by intros r' m' [-> ?].
Qed.

Lemma gather_files_wp fs g m :
  wp (gather_files json_load fs g)
     (fun r m' => proj m' = proj m /\ benign r) m.
Proof.
  revert g m. induction fs as [|f fs IH]; intros g m; simpl; [by apply wp_ret|].
  apply wp_bind. unfold wp at 1, gather_file.
  destruct (decide (suffix f = ".json")); [|simpl; apply IH].
  destruct (json_load (content f)) as [v| |message]; simpl; [apply IH| |done].
  eapply wp_conseq; [apply IH|]. by intros r m' [-> ?].
Qed.

Lemma gather_stages_wp stages g m :
  wp (gather_stages json_load stages g)
     (fun r m' => proj m' = proj m /\ benign r) m.
Proof.
  revert g m. induction stages as [|i stages IH]; intros g m; simpl; [by apply wp_ret|].
  apply wp_bind. unfold wp at 1, iterdir.
  destruct (stage_dirs (proj m) !! i) as [d|]; simpl; [|done].
  apply wp_bind. eapply wp_conseq; [apply gather_files_wp|].
  intros [g'|e|] m1 [Hp Hb]; simpl in *; [|done|done].
  eapply wp_conseq; [apply IH|]. intros r m' [-> ?]. by rewrite Hp.
Qed.

Lemma gather_inputs_wp k m :
  wp (_gather_inputs_for_stage json_load self k)
     (fun r m' => proj m' = proj m /\ benign r) m.
Proof.
  unfold _gather_inputs_for_stage. apply wp_bind, wp_emit.
  eapply wp_conseq; [apply gather_stages_wp|]. by intros r m' [-> ?].
Qed.

Lemma stage_body_wp s info m :
  wp (stage_body json_load adk_system self s info)
     (fun r m' => approvals (proj m') = approvals (proj m) /\ benign r) m.
Proof.
  unfold stage_body. apply wp_bind, wp_emit, wp_bind, wp_emit, wp_bind.
  eapply wp_conseq; [apply gather_inputs_wp|].
  intros [inputs|e|] m1 [Hp Hb]; simpl in *; [|by rewrite Hp|done].
  apply wp_bind. eapply wp_conseq; [apply run_agents_wp|].
  intros [results|e|] m2 [Ha Hb2]; simpl in *; [|by rewrite Ha, Hp|done].
  apply wp_bind, wp_emit, wp_ret. simpl. by rewrite Ha, Hp.
Qed.

(** What holds after [run_stage_fuel fuel s] from [m]. *)
Definition run_post (fuel s : nat) (m : machine World)
    (r : res json) (m' : machine World) : Prop :=
  (forall g, r <> Raise (GateNotFound g)) /\
  (1 <= fuel -> 19 - s <= fuel -> r <> OutOfFuel) /\
  (forall g, not_gate_from s g -> approvals (proj m') !! g = approvals (proj m) !! g) /\
  (forall v, r = Done v -> approved_from s m').

(** What holds after [approve_gate_with] for a declared gate. *)
Definition approve_post (fuel : nat) (g : string) (gi : gate_info) (data : json)
    (m : machine World) (r : res json) (m' : machine World) : Prop :=
  (forall g', r <> Raise (GateNotFound g')) /\
  (19 - (stage_before gi + 1) <= fuel -> r <> OutOfFuel) /\
  approvals (proj m') !! g = Some data /\
  (forall g', g' <> g -> not_gate_from (stage_before gi + 1) g' ->
     approvals (proj m') !! g' = approvals (proj m) !! g') /\
  (forall v, r = Done v -> approved_from (stage_before gi + 1) m').

Lemma not_gate_from_own g gi :
  gate_lookup g = Some gi -> not_gate_from (stage_before gi + 1) g.
Proof.
  intros Hgi s' info Hs' Hl Hg.
  pose proof (gate_not_after _ _ _ _ Hgi Hl Hg). lia.
Qed.

Lemma approved_from_beyond s m : 19 <= s -> approved_from s m.
Proof.
  intros Hs s' info g Hs' Hl _. apply stage_lookup_range in Hl. lia.
Qed.

Lemma approve_gate_with_wp fuel run g gi data m :
  gate_lookup g = Some gi ->
  (forall m1, wp (run (stage_before gi + 1))
                 (run_post fuel (stage_before gi + 1) m1) m1) ->
  wp (approve_gate_with run g data) (approve_post fuel g gi data m) m.
Proof.
  intros Hgi Hrun. unfold approve_gate_with. rewrite Hgi.
  apply wp_bind, wp_emit, wp_bind, wp_write_approval, wp_bind, wp_emit.
  set (m1 := add_log _ (with_approval _ _ _)).
  assert (Hm1 : approvals (proj m1) = <[g := data]> (approvals (proj m))) by done.
  destruct (stage_declared (stage_before gi + 1)) eqn:Hdecl.
  - apply stage_declared_spec in Hdecl.
    apply wp_bind. eapply wp_conseq; [apply Hrun|].
    intros r m' (Hng & Hfuel & Hframe & Hdone).
    assert (approvals (proj m') !! g = Some data) as Hg.
    { rewrite Hframe, Hm1; [apply lookup_insert_eq | by apply not_gate_from_own]. }
    assert (forall g', g' <> g -> not_gate_from (stage_before gi + 1) g' ->
              approvals (proj m') !! g' = approvals (proj m) !! g') as Hothers.
    { intros g' Hne Hnot. rewrite Hframe, Hm1 by done. by apply lookup_insert_ne. }
    destruct r as [v|e|].
    + apply wp_ret. repeat split; try done. intros v' _. by apply (Hdone v).
    + repeat split; try done.
    + repeat split; try done. intros Hf _. apply Hfuel; [lia | done | done].
  - apply stage_declared_false in Hdecl.
    apply wp_bind, wp_emit, wp_ret. repeat split; try done.
    + simpl. rewrite lookup_insert_eq. done.
    + intros g' Hne _. simpl. by apply lookup_insert_ne.
    + intros v _. apply approved_from_beyond. lia.
Qed.

Lemma run_stage_fuel_wp fuel s m :
  wp (run_stage_fuel json_load adk_system self fuel s) (run_post fuel s m) m.
Proof.
  revert s m. induction fuel as [|fuel IH]; intros s m.
  { simpl. unfold wp, out_of_fuel. simpl. repeat split; try done. intros; lia. }
  simpl. apply wp_bind, wp_emit.
  destruct (stage_lookup s) as [info|] eqn:Hl.
  2:{ apply wp_raise. repeat split; done. }
  pose proof (stage_lookup_range _ _ Hl) as Hrange.
  apply wp_bind. eapply wp_conseq; [apply stage_body_wp|].
  intros [results|e|] m1 [Ha Hb]; simpl in Ha, Hb.
  3:{ done. }
  2:{ split; [intros g [= ->]; done|]. split; [done|].
      split; [intros g _; simpl; by rewrite Ha | done]. }
  destruct (gate_after info) as [g0|] eqn:Hg0.
  - destruct (gate_after_declared _ _ _ Hl Hg0) as (gi & Hgi & Hle).
    apply wp_bind, wp_emit, wp_bind.
    eapply wp_conseq; [apply (approve_gate_with_wp fuel _ g0 gi); [done | intros; apply IH]|].
    intros r m' (Hng & Hfuel & Hown & Hothers & Hdone).
    assert (forall g, not_gate_from s g ->
              approvals (proj m') !! g = approvals (proj m) !! g) as Hframe.
    { intros g Hnot. rewrite Hothers.
      - simpl. by rewrite Ha.
      - intros ->. by apply (Hnot s info).
      - intros s' info' Hs'. apply Hnot. lia. }
    destruct r as [v|e|].
    + apply wp_ret. repeat split; try done.
      intros v' _ s' info' g Hs' Hl' Hg'.
      destruct (decide (s' = s)) as [->|Hne].
      { assert (g = g0) as -> by congruence. rewrite Hown. eauto. }
      destruct (decide (s' <= stage_before gi)) as [Hmid|Hlate].
      { assert (gate_after info' = None) as Hnone
          by (apply (no_gate_between s info g0 gi s' info'); try done; lia).
        congruence. }
      apply (Hdone v eq_refl s' info' g); [lia | done | done].
    + repeat split; try done.
    + repeat split; try done. intros H1 H2. apply Hfuel; lia.
  - destruct (stage_declared (s + 1)) eqn:Hdecl.
    + apply stage_declared_spec in Hdecl.
      apply wp_bind, wp_emit, wp_bind. eapply wp_conseq; [apply IH|].
      intros r m' (Hng & Hfuel & Hframe & Hdone).
      assert (forall g, not_gate_from s g ->
                approvals (proj m') !! g = approvals (proj m) !! g) as Hframe'.
      { intros g Hnot. rewrite Hframe.
        - simpl. by rewrite Ha.
        - intros s' info' Hs'. apply Hnot. lia. }
      destruct r as [v|e|].
      * apply wp_ret. repeat split; try done.
        intros v' _ s' info' g Hs' Hl' Hg'.
        destruct (decide (s' = s)) as [->|Hne]; [congruence|].
        apply (Hdone v eq_refl s' info' g); [lia | done | done].
      * repeat split; try done.
      * repeat split; try done. intros H1 H2. apply Hfuel; lia.
    + apply stage_declared_false in Hdecl.
      apply wp_ret. repeat split; try done.
      * intros g _. simpl. by rewrite Ha.
      * intros v _ s' info' g Hs' Hl' Hg'.
        pose proof (stage_lookup_range _ _ Hl'). assert (s' = s) as -> by lia. congruence.
Qed.

End Running.

(** ** The fuel is enough *)

Section Fuel.

Context {World : Type}.
Variable json_load : string -> load_outcome.
Variable adk_system : gmap string (agent World).
Variable self : manager.
Implicit Types m : machine World.

Lemma bind_ext_l {A B} (c1 c2 : M World A) (k : A -> M World B) m :
  c1 m = c2 m -> bind c1 k m = bind c2 k m.
Proof. intros H. unfold bind. by rewrite H. Qed.

Lemma approve_gate_with_ext run1 run2 g data m :
  (forall gi m1, gate_lookup g = Some gi ->
     stage_declared (stage_before gi + 1) = true ->
     run1 (stage_before gi + 1) m1 = run2 (stage_before gi + 1) m1) ->
  approve_gate_with run1 g data m = approve_gate_with run2 g data m.
Proof.
  intros H. unfold approve_gate_with. apply bind_ext. intros _ m1.
  destruct (gate_lookup g) as [gi|] eqn:Hgi; [|done].
  apply bind_ext. intros _ m2. apply bind_ext. intros _ m3.
  destruct (stage_declared (stage_before gi + 1)) eqn:Hd; [|done].
  apply bind_ext_l. by apply H.
Qed.

(** One unfolding of the fixpoint. *)
Lemma run_stage_fuel_S fuel s m :
  run_stage_fuel json_load adk_system self (S fuel) s m =
  (emit (LogRunStage s) ;;;
   match stage_lookup s with
   | None => raise (StageNotFound s)
   | Some stage =>
       results <- stage_body json_load adk_system self s stage ;;
       match gate_after stage with
       | Some gate_id =>
           emit (LogAutoApprove gate_id) ;;;
           approve_gate_with (run_stage_fuel json_load adk_system self fuel)
             gate_id auto_approval ;;;
           ret (completed_response s results)
       | None =>
           if stage_declared (s + 1) then
             emit (LogNoGate s (s + 1)) ;;;
             run_stage_fuel json_load adk_system self fuel (s + 1) ;;;
             ret (completed_response s results)
           else ret (completed_response s results)
       end
   end) m.
Proof. reflexivity. Qed.

Lemma run_stage_fuel_irrelevant f1 f2 s m :
  1 <= f1 -> 1 <= f2 -> 19 - s <= f1 -> 19 - s <= f2 ->
  run_stage_fuel json_load adk_system self f1 s m =
  run_stage_fuel json_load adk_system self f2 s m.
Proof.
  revert f2 s m. induction f1 as [|f1 IH]; intros f2 s m H1 H2 H3 H4; [lia|].
  destruct f2 as [|f2]; [lia|]. rewrite !run_stage_fuel_S.
  apply bind_ext. intros _ m1.
  destruct (stage_lookup s) as [info|] eqn:Hl; [|done].
  pose proof (stage_lookup_range _ _ Hl) as Hrange.
  apply bind_ext. intros results m2.
  destruct (gate_after info) as [g0|] eqn:Hg0.
  - apply bind_ext. intros _ m3. apply bind_ext_l.
    apply approve_gate_with_ext. intros gi m4 Hgi Hdecl.
    apply stage_declared_spec in Hdecl.
    pose proof (gate_not_after _ _ _ _ Hgi Hl Hg0).
    apply IH; lia.
  - destruct (stage_declared (s + 1)) eqn:Hdecl; [|done].
    apply stage_declared_spec in Hdecl.
    apply bind_ext. intros _ m3. apply bind_ext_l. apply IH; lia.
Qed.

Lemma run_stage_fuel_undeclared fuel s m :
  stage_lookup s = None ->
  run_stage_fuel json_load adk_system self (S fuel) s m =
  (add_log [LogRunStage s] m, Raise (StageNotFound s)).
Proof. intros H. rewrite run_stage_fuel_S, H. reflexivity. Qed.

Lemma run_stage_eq_fuel s m :
  run_stage json_load adk_system self s m =
  run_stage_fuel json_load adk_system self 18 s m.
Proof. reflexivity. Qed.


(** The recursive call of [run_stage] inside [run_stage]. *)
Lemma run_stage_inner s m :
  2 <= s ->
  run_stage_fuel json_load adk_system self 17 s m =
  run_stage json_load adk_system self s m.
Proof.
  intros Hs. rewrite run_stage_eq_fuel.
  destruct (stage_lookup s) as [info|] eqn:Hl.
  - apply run_stage_fuel_irrelevant; lia.
  - rewrite (run_stage_fuel_undeclared 16), (run_stage_fuel_undeclared 17); done.
Qed.

Lemma run_stage_unfold s m :
  run_stage json_load adk_system self s m =
  (emit (LogRunStage s) ;;;
   match stage_lookup s with
   | None => raise (StageNotFound s)
   | Some stage =>
       results <- stage_body json_load adk_system self s stage ;;
       match gate_after stage with
       | Some gate_id =>
           emit (LogAutoApprove gate_id) ;;;
           approve_gate json_load adk_system self gate_id auto_approval ;;;
           ret (completed_response s results)
       | None =>
           if stage_declared (s + 1) then
             emit (LogNoGate s (s + 1)) ;;;
             run_stage json_load adk_system self (s + 1) ;;;
             ret (completed_response s results)
           else ret (completed_response s results)
       end
   end) m.
Proof.
  rewrite run_stage_eq_fuel, (run_stage_fuel_S 17).
  apply bind_ext. intros _ m1.
  destruct (stage_lookup s) as [info|] eqn:Hl; [|done].
  pose proof (stage_lookup_range _ _ Hl) as Hrange.
  apply bind_ext. intros results m2.
  destruct (gate_after info) as [g0|] eqn:Hg0.
  - apply bind_ext. intros _ m3. apply bind_ext_l. unfold approve_gate.
    apply approve_gate_with_ext. intros gi m4 Hgi Hdecl.
    pose proof (gate_not_after _ _ _ _ Hgi Hl Hg0).
    apply run_stage_inner. lia.
  - destruct (stage_declared (s + 1)) eqn:Hdecl; [|done].
    apply bind_ext. intros _ m3. apply bind_ext_l. apply run_stage_inner. lia.
Qed.

Lemma run_stage_wp s m :
  wp (run_stage json_load adk_system self s) (run_post 18 s m) m.
Proof. apply run_stage_fuel_wp. Qed.

Lemma approve_gate_wp g gi data m :
  gate_lookup g = Some gi ->
  wp (approve_gate json_load adk_system self g data) (approve_post 18 g gi data m) m.
Proof.
  intros Hgi. apply approve_gate_with_wp; [done|]. intros m1. apply run_stage_wp.
Qed.

End Fuel.

(** ** Gates and stage progression *)

Section Progression.

Context {World : Type}.
Variable json_load : string -> load_outcome.
Variable adk_system : gmap string (agent World).
Variable self : manager.
Implicit Types m : machine World.

Lemma first_unapproved_unapproved gates p g :
  first_unapproved gates p = Some g -> approvals p !! g = None.
Proof. intros (i & gi & _ & H & _)%first_unapproved_Some. done. Qed.

Lemma all_gates_approved m :
  approved_from 1 m -> _get_pending_gate (proj m) = None.
Proof.
  intros H. apply first_unapproved_None. intros g gi Hin.
  assert (gate_lookup g = Some gi) as Hgi.
  { apply list_elem_of_In in Hin. simpl in Hin.
    repeat (destruct Hin as [Hin|Hin]; [by inversion Hin|]). contradiction. }
  destruct (gate_has_stage g gi Hgi) as (s & info & Hl & Hg).
  pose proof (stage_lookup_range _ _ Hl). apply (H s info g); [lia | done | done].
Qed.

(** C1, as the code has it. A stage with a trailing gate approves that gate
    itself: when [run_stage s] returns, the record of the gate is the
    engine's own auto-approval, every gate of a later stage has a record
    too, and the gate is not pending. In particular, when approving G0
    returns, every gate has a record and no gate is pending. *)
Theorem trailing_gate_is_auto_approved :
  (forall s info g m m' v,
     stage_lookup s = Some info -> gate_after info = Some g ->
     run_stage json_load adk_system self s m = (m', Done v) ->
     approvals (proj m') !! g = Some auto_approval /\
     approved_from s m' /\
     _get_pending_gate (proj m') <> Some g) /\
  (forall data m m' v,
     approve_gate json_load adk_system self "G0" data m = (m', Done v) ->
     approvals (proj m') !! "G0" = Some data /\
     _get_pending_gate (proj m') = None).
Proof.
  split.
  - intros s info g m m' v Hl Hg Hrun.
    pose proof (run_stage_wp json_load adk_system self s m) as Hpost.
    unfold wp in Hpost. rewrite Hrun in Hpost. simpl in Hpost.
    destruct Hpost as (_ & _ & _ & Hdone). specialize (Hdone v eq_refl).
    assert (approvals (proj m') !! g = Some auto_approval) as Hown.
    { rewrite run_stage_unfold, Hl in Hrun.
      apply bind_Done in Hrun as (m1 & [] & _ & Hrun).
      apply bind_Done in Hrun as (m2 & results & _ & Hrun).
      rewrite Hg in Hrun.
      apply bind_Done in Hrun as (m3 & [] & _ & Hrun).
      apply bind_Done in Hrun as (m4 & v' & Happ & Hret).
      injection Hret as <- _.
      destruct (gate_after_declared _ _ _ Hl Hg) as (gi & Hgi & _).
      pose proof (approve_gate_wp json_load adk_system self g gi auto_approval m3 Hgi)
        as Hpost.
      unfold wp in Hpost. rewrite Happ in Hpost. by destruct Hpost as (_ & _ & ? & _). }
    split; [done|]. split; [done|].
    intros Hpend%first_unapproved_unapproved. congruence.
  - intros data m m' v Happ.
    pose proof (approve_gate_wp json_load adk_system self "G0" _ data m eq_refl) as Hpost.
    unfold wp in Hpost. rewrite Happ in Hpost. simpl in Hpost.
    destruct Hpost as (_ & _ & Hown & _ & Hdone). specialize (Hdone v eq_refl).
    simpl in Hdone.
    split; [done|]. apply all_gates_approved.
    intros s' info g Hs' Hl Hg.
    destruct (decide (s' = 1)) as [->|Hne].
    + vm_compute in Hl. injection Hl as <-. injection Hg as <-. rewrite Hown. eauto.
    + apply (Hdone s' info g); [lia | done | done].
Qed.

(** C6. [approve_gate] raises the gate-not-found error exactly when the id
    is not a key of [DECISION_GATES]. For a declared gate it writes the
    record, then runs the stage after [stage_before] when that stage is
    declared and answers [Workflow continues], and otherwise answers
    [Workflow complete] without running a stage; the record is in the store
    whatever the outcome. *)
Theorem approve_gate_outcomes g data m :
  ((exists g', (approve_gate json_load adk_system self g data m).2
               = Raise (GateNotFound g')) <->
   gate_lookup g = None) /\
  (forall gi, gate_lookup g = Some gi ->
     approve_gate json_load adk_system self g data m =
     (if stage_declared (stage_before gi + 1) then
        run_stage json_load adk_system self (stage_before gi + 1) ;;;
        ret (approved_response g (continues_message g))
      else
        emit LogFinalGate ;;;
        ret (approved_response g complete_message))
       (add_log [LogGateApproved g]
          (with_approval g data (add_log [LogApproving g] m))) /\
     approvals (proj (approve_gate json_load adk_system self g data m).1) !! g
       = Some data).
Proof.
  split.
  - destruct (gate_lookup g) as [gi|] eqn:Hgi.
    + split; [|discriminate]. intros [g' Hr].
      pose proof (approve_gate_wp json_load adk_system self g gi data m Hgi) as (Hng & _).
      by destruct (Hng g').
    + split; [done|]. intros _. exists g.
      unfold approve_gate, approve_gate_with, bind, emit. simpl. by rewrite Hgi.
  - intros gi Hgi. split.
    + unfold approve_gate, approve_gate_with at 1. rewrite Hgi.
      unfold bind at 1, emit at 1. simpl. reflexivity.
    + by pose proof (approve_gate_wp json_load adk_system self g gi data m Hgi)
        as (_ & _ & ? & _).
Qed.

(** C7. A stage without a trailing gate runs the next stage itself when
    that stage is declared, and returns only after it; after the last
    declared stage nothing more is run. *)
Theorem run_stage_without_gate_continues s info m :
  stage_lookup s = Some info -> gate_after info = None ->
  (stage_declared (s + 1) = true ->
   run_stage json_load adk_system self s m =
   (emit (LogRunStage s) ;;;
    results <- stage_body json_load adk_system self s info ;;
    emit (LogNoGate s (s + 1)) ;;;
    run_stage json_load adk_system self (s + 1) ;;;
    ret (completed_response s results)) m) /\
  (stage_declared (s + 1) = false ->
   s = 18 /\
   run_stage json_load adk_system self s m =
   (emit (LogRunStage s) ;;;
    results <- stage_body json_load adk_system self s info ;;
    ret (completed_response s results)) m).
Proof.
  intros Hl Hg. pose proof (stage_lookup_range _ _ Hl) as Hrange.
  split; intros Hdecl.
  - by rewrite run_stage_unfold, Hl, Hg, Hdecl.
  - split; [apply stage_declared_false in Hdecl; lia|].
    by rewrite run_stage_unfold, Hl, Hg, Hdecl.
Qed.

(** C10. For a declared gate the record is written before the next stage is
    started: whatever [run_stage] does, it starts from a store that holds
    the record. The record is still there when [approve_gate] is over, also
    when the stages it ran raised. *)
Theorem approval_written_before_next_stage g gi data m :
  gate_lookup g = Some gi ->
  (forall run : nat -> M World json,
     exists m1,
       approvals (proj m1) !! g = Some data /\
       approve_gate_with run g data m =
       (if stage_declared (stage_before gi + 1) then
          run (stage_before gi + 1) ;;;
          ret (approved_response g (continues_message g))
        else
          emit LogFinalGate ;;;
          ret (approved_response g complete_message)) m1) /\
  (forall m' r,
     approve_gate json_load adk_system self g data m = (m', r) ->
     r <> OutOfFuel /\ approvals (proj m') !! g = Some data).
Proof.
  intros Hgi. split.
  - intros run.
    exists (add_log [LogGateApproved g] (with_approval g data (add_log [LogApproving g] m))).
    split; [simpl; apply lookup_insert_eq|].
    unfold approve_gate_with at 1. rewrite Hgi. reflexivity.
  - intros m' r Happ.
    pose proof (approve_gate_wp json_load adk_system self g gi data m Hgi) as Hpost.
    unfold wp in Hpost. rewrite Happ in Hpost. simpl in Hpost.
    destruct Hpost as (_ & Hend & Hown & _). split; [|done].
    apply Hend. pose proof (gate_has_stage g gi Hgi) as (s & info & Hl & Hg).
    pose proof (gate_not_after _ _ _ _ Hgi Hl Hg).
    pose proof (stage_lookup_range _ _ Hl). lia.
Qed.

End Progression.

(** ** Failing agents *)

Section Failures.

Context {World : Type}.
Variable json_load : string -> load_outcome.
Variable adk_system : gmap string (agent World).
Variable self : manager.
Implicit Types m : machine World.

Lemma run_agents_returned n (a : agent World) rest current_input acc m w d r :
  adk_system !! n = Some a ->
  a (<["stage_results" := JArr acc]> current_input) (project_id self)
    (world m) (stage_dirs (proj m)) = (w, d, Returned r) ->
  run_agents adk_system self current_input (n :: rest) acc m =
  run_agents adk_system self current_input rest (acc ++ [r]) (after_agent w d m).
Proof.
  intros Ha Hr. simpl. rewrite Ha. unfold bind at 1.
  by rewrite process_request_eq, Hr.
Qed.

Lemma run_agents_raised n (a : agent World) rest current_input acc m w d msg :
  adk_system !! n = Some a ->
  a (<["stage_results" := JArr acc]> current_input) (project_id self)
    (world m) (stage_dirs (proj m)) = (w, d, Raised msg) ->
  run_agents adk_system self current_input (n :: rest) acc m =
  (after_agent w d m, Raise (AgentRaised msg)).
Proof.
  intros Ha Hr. simpl. rewrite Ha. unfold bind at 1.
  by rewrite process_request_eq, Hr.
Qed.

Lemma run_agents_never_raises names current_input acc m :
  never_raises adk_system ->
  exists m' results,
    run_agents adk_system self current_input names acc m = (m', Done (acc ++ results)%list) /\
    length results = length (registered adk_system names).
Proof.
  intros Hnr. revert acc m.
  induction names as [|n names IH]; intros acc m.
  - exists m, []. by rewrite app_nil_r.
  - unfold registered. rewrite filter_cons.
    destruct (adk_system !! n) as [a|] eqn:Ha.
    + rewrite decide_True by eauto.
      destruct (a (<["stage_results" := JArr acc]> current_input) (project_id self)
                  (world m) (stage_dirs (proj m))) as [[w d] o] eqn:Ho.
      destruct (Hnr n a (<["stage_results" := JArr acc]> current_input)
                  (project_id self) (world m) (stage_dirs (proj m)) Ha) as [r Hr].
      rewrite Ho in Hr. simpl in Hr. subst o.
      rewrite (run_agents_returned n a names _ _ _ w d r Ha Ho).
      destruct (IH (acc ++ [r]) (after_agent w d m)) as (m' & results & Heq & Hlen).
      exists m', (r :: results). rewrite Heq, <- app_assoc. simpl.
      split; [done|]. by rewrite Hlen.
    + rewrite decide_False by (intros [? ?]; done).
      simpl. rewrite Ha. unfold bind at 1, emit at 1. simpl.
      apply IH.
Qed.

(** [run_stage] hands on whatever the agent loop raises: nothing between
    the call of [process_request] and the caller of [run_stage] catches. *)
Lemma run_agents_raise_reaches_run_stage s info m m1 inputs m2 e :
  stage_lookup s = Some info ->
  _gather_inputs_for_stage json_load self s
    (add_log [LogRunStage s; LogStageStart s (name info); LogActivating (agents info)] m)
    = (m1, Done inputs) ->
  run_agents adk_system self inputs (ordered_agents_of s info) [] m1 = (m2, Raise e) ->
  stage_body json_load adk_system self s info (add_log [LogRunStage s] m) = (m2, Raise e) /\
  run_stage json_load adk_system self s m = (m2, Raise e).
Proof.
  intros Hl Hg Hr.
  assert (stage_body json_load adk_system self s info (add_log [LogRunStage s] m)
          = (m2, Raise e)) as Hbody.
  { unfold stage_body. rewrite !bind_emit, !add_log_app. simpl app.
    unfold bind at 1. rewrite Hg. unfold bind at 1. by rewrite Hr. }
  split; [done|].
  rewrite run_stage_unfold, Hl. unfold bind at 1, emit at 1. simpl.
  unfold bind at 1. fold (add_log [LogRunStage s] m). by rewrite Hbody.
Qed.

(** C2, as the code has it. What an agent returns is appended to the
    result list and the next agent runs, whatever the [status] of the
    result; if no registered agent raises, the earlier stage directories
    exist and [json.load] raises nothing but [JSONDecodeError] on their JSON
    files, the stage body completes with one result per registered agent.
    What an agent raises is not caught: the remaining agents are skipped,
    and when the agent loop of stage [s] ends with an exception, the stage
    body and [run_stage s] end with that same exception, in the state the
    raising agent left. *)
Theorem agent_results_kept_exceptions_propagate :
  (forall n (a : agent World) rest current_input acc m w d r,
     adk_system !! n = Some a ->
     a (<["stage_results" := JArr acc]> current_input) (project_id self)
       (world m) (stage_dirs (proj m)) = (w, d, Returned r) ->
     run_agents adk_system self current_input (n :: rest) acc m =
     run_agents adk_system self current_input rest (acc ++ [r]) (after_agent w d m)) /\
  (never_raises adk_system ->
   forall s info m,
     stage_lookup s = Some info ->
     (forall i, 1 <= i < s -> is_Some (stage_dirs (proj m) !! i)) ->
     (forall i d f message, 1 <= i < s -> stage_dirs (proj m) !! i = Some d -> f ∈ d ->
        suffix f = ".json" -> json_load (content f) <> LoadRaised message) ->
     exists m1 results,
       stage_body json_load adk_system self s info m =
         (add_log [LogStageCompleted s results] m1, Done results) /\
       length results = length (registered adk_system (ordered_agents_of s info))) /\
  (forall n (a : agent World) rest current_input acc m w d msg,
     adk_system !! n = Some a ->
     a (<["stage_results" := JArr acc]> current_input) (project_id self)
       (world m) (stage_dirs (proj m)) = (w, d, Raised msg) ->
     run_agents adk_system self current_input (n :: rest) acc m =
     (after_agent w d m, Raise (AgentRaised msg))) /\
  (forall s info m m1 inputs m2 e,
     stage_lookup s = Some info ->
     _gather_inputs_for_stage json_load self s
       (add_log [LogRunStage s; LogStageStart s (name info); LogActivating (agents info)] m)
       = (m1, Done inputs) ->
     run_agents adk_system self inputs (ordered_agents_of s info) [] m1 = (m2, Raise e) ->
     stage_body json_load adk_system self s info (add_log [LogRunStage s] m)
       = (m2, Raise e) /\
     run_stage json_load adk_system self s m = (m2, Raise e)).
Proof.
  split; [apply run_agents_returned|].
  split; [|split; [apply run_agents_raised | apply run_agents_raise_reaches_run_stage]].
  intros Hnr s info m Hl Hdirs Hloads.
  set (m0 := add_log [LogStageStart s (name info); LogActivating (agents info)] m).
  destruct (prior_files_exist s m0) as [files Hfiles]; [done|].
  assert (loadable json_load files) as Hload.
  { by apply (loadable_prior_files json_load s m0 files Hfiles). }
  unfold stage_body. unfold bind at 1, emit at 1. unfold bind at 1, emit at 1.
  simpl. unfold bind at 1.
  rewrite (gather_inputs_eq json_load self s _ files)
    by (unfold m0, add_log in Hfiles; simpl in *; done).
  unfold bind at 1.
  match goal with
  | |- context [run_agents _ _ ?inp ?names ?acc ?m1] =>
      destruct (run_agents_never_raises names inp acc m1 Hnr)
        as (m' & results & Heq & Hlen)
  end.
  rewrite Heq. simpl. eexists m', results. split; [reflexivity | done].
Qed.

End Failures.

(** ** The status endpoint *)

(** C9 at the failing input. With an empty store, asking for the status of
    a project that was never created does not answer 404: the handler
    constructs a manager, which creates the project and its eighteen stage
    directories, and answers with a status in which G0 is pending, stage 1
    is [Pending] and the project is now in the store. *)
Theorem status_of_unknown_project_is_created
    (render_artifacts : file -> list artifact) (fresh_uuid : string) :
  exists st,
    http_get_project_status render_artifacts fresh_uuid "ghost" ∅
      = (_initialize_project (new_manager (Some "ghost") None fresh_uuid) ∅,
         Http_ok st) /\
    pending_gate st = Some "G0" /\
    status <$> stages st !! 0 = Some "Pending" /\
    (stage_dirs <$>
       _initialize_project (new_manager (Some "ghost") None fresh_uuid) ∅ !! "ghost")
      = Some (list_to_map ((fun i => (i, [])) <$> seq 1 18)).
Proof.
  eexists. split; [vm_compute; reflexivity|]. split; [reflexivity|].
  split; [reflexivity|]. vm_compute. reflexivity.
Qed.

(** ** The statements at concrete inputs *)

Lemma mixed_agents_never_raise : never_raises Sample.mixed_agents.
Proof.
  intros n a user_input pid w d H. unfold Sample.mixed_agents in H.
  apply lookup_insert_Some in H as [[_ <-]|[_ H]]; [by eexists|].
  apply lookup_insert_Some in H as [[_ <-]|[_ H]]; [by eexists|].
  by rewrite lookup_empty in H.
Qed.

Lemma fresh_project_has_stage i :
  1 <= i < 19 -> is_Some (stage_dirs Sample.fresh_project !! i).
Proof.
  intros [H1 H2].
  do 19 (destruct i as [|i]; [first [lia | vm_compute; eauto]|]). lia.
Qed.

(** C1, counterexample: with no agent registered, [run_stage 1] on a fresh
    project returns and leaves no gate pending, although stage 1 declares
    G0; approving G0 leaves no gate pending either, not G1. *)
Lemma stage_1_leaves_no_gate_pending :
  gate_after <$> stage_lookup 1 = Some (Some "G0") /\
  (run_stage Sample.load Sample.no_agents Sample.mgr 1 Sample.start).2
    = Done (completed_response 1 []) /\
  _get_pending_gate
    (proj (run_stage Sample.load Sample.no_agents Sample.mgr 1 Sample.start).1)
    = None /\
  (approve_gate Sample.load Sample.no_agents Sample.mgr "G0" auto_approval Sample.start).2
    = Done (approved_response "G0" (continues_message "G0")) /\
  _get_pending_gate
    (proj (approve_gate Sample.load Sample.no_agents Sample.mgr "G0" auto_approval
             Sample.start).1)
    = None.
Proof. repeat split; vm_compute; reflexivity. Qed.

Lemma trailing_gate_is_auto_approved_witness :
  approvals
    (proj (run_stage Sample.load Sample.no_agents Sample.mgr 1 Sample.start).1) !! "G0"
    = Some auto_approval /\
  _get_pending_gate
    (proj (approve_gate Sample.load Sample.no_agents Sample.mgr "G0" JNull
             Sample.start).1)
    = None.
Proof.
  split.
  - eapply (proj1 (trailing_gate_is_auto_approved Sample.load Sample.no_agents Sample.mgr)
              1 _ "G0" Sample.start _ (completed_response 1 [])).
    + reflexivity.
    + reflexivity.
    + vm_compute. reflexivity.
  - eapply (proj2 (trailing_gate_is_auto_approved Sample.load Sample.no_agents Sample.mgr)
              JNull Sample.start _ (approved_response "G0" (continues_message "G0"))).
    vm_compute. reflexivity.
Defined.

(** C2, counterexample: the first agent of stage 2 raises; [run_stage 2]
    raises the same exception, the second agent has written nothing and no
    result list is logged. *)
Lemma raising_agent_aborts_the_stage :
  (run_stage Sample.load Sample.raising_then_writing Sample.mgr 2 Sample.start).2
    = Raise (AgentRaised "Stage ID not provided in user_input.") /\
  stage_dirs
    (proj (run_stage Sample.load Sample.raising_then_writing Sample.mgr 2
             Sample.start).1) !! 2 = Some [] /\
  log (run_stage Sample.load Sample.raising_then_writing Sample.mgr 2 Sample.start).1
    = [LogRunStage 2; LogStageStart 2 "Data & Constraints Harvest";
       LogActivating ["data_harvester_agent"; "geospatial_site_context_agent"];
       LogGathering 2].
Proof. repeat split; vm_compute; reflexivity. Qed.

Lemma agent_results_kept_exceptions_propagate_witness :
  (exists m1 results,
     stage_body Sample.load Sample.mixed_agents Sample.mgr 2
       {| name := "Data & Constraints Harvest";
          agents := ["data_harvester_agent"; "geospatial_site_context_agent"];
          gate_after := None |} Sample.start
       = (add_log [LogStageCompleted 2 results] m1, Done results) /\
     length results = 2) /\
  (run_stage Sample.load Sample.raising_then_writing Sample.mgr 2 Sample.start).2
    = Raise (AgentRaised "Stage ID not provided in user_input.").
Proof.
  split.
  - apply (proj1 (proj2 (agent_results_kept_exceptions_propagate
                           Sample.load Sample.mixed_agents Sample.mgr))
             mixed_agents_never_raise 2 _ Sample.start).
    + reflexivity.
    + intros i Hi. apply fresh_project_has_stage. lia.
    + intros i d f message Hi Hd Hf. assert (i = 1) as -> by lia.
      vm_compute in Hd. injection Hd as <-. by apply elem_of_nil in Hf.
  - pose proof (proj2 (proj2 (proj2 (agent_results_kept_exceptions_propagate
                           Sample.load Sample.raising_then_writing Sample.mgr)))
                  2 {| name := "Data & Constraints Harvest";
                       agents := ["data_harvester_agent"; "geospatial_site_context_agent"];
                       gate_after := None |}
                  Sample.start) as Hlink.
    edestruct Hlink as [_ Hrun].
    + reflexivity.
    + vm_compute. reflexivity.
    + vm_compute. reflexivity.
    + by rewrite Hrun.
Defined.

(** C3, counterexample: artifacts of stage 1 named [stage_id.json] and
    [initial_data.json] replace the stage number and the intake payload in
    the input of stage 2. And with no such artifact: for the manager that the
    approval handler builds from the project id alone, [initial_data] is the
    empty mapping, not the intake payload the project was created with (which
    is still in [initial_project_data.json]). *)
Lemma artifact_overwrites_reserved_keys :
  match (_gather_inputs_for_stage Sample.load Sample.mgr 2 Sample.shadowing).2 with
  | Done inputs =>
      inputs !! "stage_id" = Some (JObj []) /\
      inputs !! "initial_data" = Some JNull /\
      JObj (initial_data Sample.mgr) = JObj [("project_name", JStr "Depot")]
  | _ => False
  end /\
  match (_gather_inputs_for_stage Sample.load Sample.rebuilt_mgr 2 Sample.after_intake).2 with
  | Done inputs =>
      inputs !! "initial_data" = Some (JObj []) /\
      initial_project_data (proj Sample.after_intake)
        = Some (JObj [("project_name", JStr "Depot")]) /\
      project_id Sample.rebuilt_mgr = project_id Sample.mgr
  | _ => False
  end.
Proof. vm_compute. repeat split; reflexivity. Qed.

Lemma gather_inputs_prior_stages_only_witness :
  exists m' inputs,
    _gather_inputs_for_stage Sample.load Sample.mgr 2 Sample.after_intake
      = (m', Done inputs) /\
    is_Some (inputs !! "project_charter") /\
    inputs !! "stage_id" = Some (JNum 2).
Proof.
  destruct (gather_inputs_prior_stages_only Sample.load Sample.mgr 2 Sample.after_intake)
    as [(m' & inputs & Heq & Hall & _ & _ & _ & _ & _ & Hsid) _].
  { intros i Hi. assert (i = 1) as -> by lia. vm_compute. eauto. }
  { intros i d f message Hi Hd Hf Hs.
    assert (i = 1) as -> by lia. vm_compute in Hd. injection Hd as <-.
    apply list_elem_of_In in Hf. simpl in Hf.
    destruct Hf as [<-|[<-|[]]]; vm_compute; discriminate. }
  exists m', inputs. split; [done|]. split.
  - apply (Hall 1 [Sample.charter; Sample.broken] Sample.charter).
    + lia.
    + vm_compute. reflexivity.
    + apply list_elem_of_here.
    + reflexivity.
  - apply Hsid. intros i d f Hi Hd Hf Hs.
    assert (i = 1) as -> by lia. vm_compute in Hd. injection Hd as <-.
    apply list_elem_of_In in Hf. simpl in Hf.
    destruct Hf as [<-|[<-|[]]]; done.
Defined.

(** C8 at the failing input. Stage 1 has left [site_scan.json], which holds
    the single byte 0xFF. [json.load] raises [UnicodeDecodeError], which
    [except json.JSONDecodeError] does not catch: aggregation for stage 2
    ends with that exception after the charter was read, no warning is
    logged, [run_stage 2] ends with the same exception before any agent
    runs. A file on which [json.load] raises [JSONDecodeError] is tolerated
    at the same place. *)
Theorem undecodable_json_aborts_aggregation :
  Sample.load (content Sample.undecodable)
    = LoadRaised "'utf-8' codec can't decode byte 0xff" /\
  _gather_inputs_for_stage Sample.load Sample.mgr 2 Sample.after_scan
    = (add_log [LogGathering 2] Sample.after_scan,
       Raise (LoadFailed "'utf-8' codec can't decode byte 0xff")) /\
  (run_stage Sample.load Sample.mixed_agents Sample.mgr 2 Sample.after_scan).2
    = Raise (LoadFailed "'utf-8' codec can't decode byte 0xff") /\
  log (run_stage Sample.load Sample.mixed_agents Sample.mgr 2 Sample.after_scan).1
    = [LogRunStage 2; LogStageStart 2 "Data & Constraints Harvest";
       LogActivating ["data_harvester_agent"; "geospatial_site_context_agent"];
       LogGathering 2] /\
  (exists inputs,
     (_gather_inputs_for_stage Sample.load Sample.mgr 2 Sample.after_intake).2
       = Done inputs /\
     inputs !! "constraints" = Some (JObj [])).
Proof.
  split; [reflexivity|]. split; [vm_compute; reflexivity|].
  split; [vm_compute; reflexivity|]. split; [vm_compute; reflexivity|].
  eexists. split; [vm_compute; reflexivity|]. vm_compute. reflexivity.
Qed.

Lemma approve_gate_outcomes_witness :
  (exists g', (approve_gate Sample.load Sample.no_agents Sample.mgr "G9" JNull
                 Sample.start).2 = Raise (GateNotFound g')) /\
  approvals
    (proj (approve_gate Sample.load Sample.no_agents Sample.mgr "G6" JNull
             Sample.start).1) !! "G6" = Some JNull.
Proof.
  split.
  - apply (proj1 (approve_gate_outcomes Sample.load Sample.no_agents Sample.mgr
                    "G9" JNull Sample.start)).
    reflexivity.
  - eapply (proj2 (approve_gate_outcomes Sample.load Sample.no_agents Sample.mgr
                     "G6" JNull Sample.start)).
    reflexivity.
Defined.

Lemma run_stage_without_gate_continues_witness :
  run_stage Sample.load Sample.no_agents Sample.mgr 2 Sample.start =
  (emit (LogRunStage 2) ;;;
   results <- stage_body Sample.load Sample.no_agents Sample.mgr 2
                {| name := "Data & Constraints Harvest";
                   agents := ["data_harvester_agent"; "geospatial_site_context_agent"];
                   gate_after := None |} ;;
   emit (LogNoGate 2 3) ;;;
   run_stage Sample.load Sample.no_agents Sample.mgr 3 ;;;
   ret (completed_response 2 results)) Sample.start.
Proof.
  apply (proj1 (run_stage_without_gate_continues Sample.load Sample.no_agents
                  Sample.mgr 2 _ Sample.start eq_refl eq_refl)).
  reflexivity.
Defined.

Lemma approval_written_before_next_stage_witness :
  (approve_gate Sample.load Sample.raising_then_writing Sample.mgr "G0" JNull
     Sample.start).2
    = Raise (AgentRaised "Stage ID not provided in user_input.") /\
  approvals
    (proj (approve_gate Sample.load Sample.raising_then_writing Sample.mgr "G0" JNull
             Sample.start).1) !! "G0" = Some JNull.
Proof.
  split; [vm_compute; reflexivity|].
  eapply (proj2 (approval_written_before_next_stage Sample.load
                   Sample.raising_then_writing Sample.mgr "G0" _ JNull Sample.start
                   eq_refl)).
  apply surjective_pairing.
Defined.

(** * Further properties of the engine *)

(** ** Which stages a run starts, and what it leaves alone *)

Lemma stages_started_app l1 l2 :
  stages_started (l1 ++ l2) = stages_started l1 ++ stages_started l2.
Proof. apply omap_app. Qed.

Lemma stages_from_gate s info g gi :
  stage_lookup s = Some info -> gate_after info = Some g ->
  gate_lookup g = Some gi ->
  stages_from s = s :: stages_from (stage_before gi + 1).
Proof.
  intros H Hg Hgi. stage_cases H; simpl in Hg; try discriminate;
    injection Hg as <-; vm_compute in Hgi; injection Hgi as <-; reflexivity.
Qed.

Lemma stages_from_no_gate s info :
  stage_lookup s = Some info -> gate_after info = None ->
  stages_from s = s :: stages_from (s + 1).
Proof. intros H Hg. stage_cases H; simpl in Hg; try discriminate; reflexivity. Qed.

Lemma stages_from_undeclared s : stage_declared s = false -> stages_from s = [].
Proof.
  intros H%stage_declared_false. unfold stages_from.
  rewrite decide_False by lia. rewrite decide_False by lia. done.
Qed.

Lemma stages_from_head s info :
  stage_lookup s = Some info -> exists rest, stages_from s = s :: rest.
Proof.
  intros H. destruct (gate_after info) as [g|] eqn:Hg.
  - destruct (gate_after_declared _ _ _ H Hg) as (gi & Hgi & _).
    rewrite (stages_from_gate _ _ _ _ H Hg Hgi). eauto.
  - rewrite (stages_from_no_gate _ _ H Hg). eauto.
Qed.

Section Trace.

Context {World : Type}.
Variable json_load : string -> load_outcome.
Variable adk_system : gmap string (agent World).
Variable self : manager.
Implicit Types m : machine World.

Lemma keeps_refl m : keeps m m.
Proof. by split. Qed.

Lemma keeps_trans m1 m2 m3 : keeps m1 m2 -> keeps m2 m3 -> keeps m1 m3.
Proof. intros [H1 H2] [H3 H4]. split; [congruence | auto]. Qed.

Lemma keeps_same m m' :
  initial_project_data (proj m') = initial_project_data (proj m) ->
  approvals (proj m') = approvals (proj m) -> keeps m m'.
Proof. intros H1 H2. split; [done|]. by rewrite H2. Qed.

Lemma keeps_with_approval g data m : keeps m (with_approval g data m).
Proof.
  split; [done|]. intros g' Hg'. simpl.
  destruct (decide (g = g')) as [->|Hne].
  - rewrite lookup_insert_eq. eauto.
  - by rewrite lookup_insert_ne.
Qed.

Lemma quietly_refl m : quietly m m.
Proof. exists []. by rewrite app_nil_r. Qed.

Lemma quietly_trans m1 m2 m3 : quietly m1 m2 -> quietly m2 m3 -> quietly m1 m3.
Proof.
  intros (l1 & H1 & Hq1) (l2 & H2 & Hq2). exists (l1 ++ l2).
  rewrite H2, H1, <- app_assoc, stages_started_app, Hq1, Hq2. done.
Qed.

Lemma quietly_add_log l m : stages_started l = [] -> quietly m (add_log l m).
Proof. intros H. by exists l. Qed.

Lemma gather_files_quiet fs g m :
  wp (gather_files json_load fs g)
     (fun r m' => proj m' = proj m /\ world m' = world m /\ quietly m m' /\ benign r) m.
Proof.
  revert g m. induction fs as [|f fs IH]; intros g m; simpl.
  - apply wp_ret. split; [done|]. split; [done|]. split; [apply quietly_refl | done].
  - apply wp_bind. unfold wp at 1, gather_file.
    destruct (decide (suffix f = ".json")); [|simpl; apply IH].
    destruct (json_load (content f)) as [v| |message]; simpl; [apply IH| |].
    + eapply wp_conseq; [apply IH|]. intros r m' (Hp & Hw & Hq & Hb).
      split; [done|]. split; [done|]. split; [|done].
      eapply quietly_trans; [|exact Hq]. by apply quietly_add_log.
    + split; [done|]. split; [done|]. split; [apply quietly_refl | done].
Qed.

Lemma gather_stages_quiet stages g m :
  wp (gather_stages json_load stages g)
     (fun r m' => proj m' = proj m /\ world m' = world m /\ quietly m m' /\ benign r) m.
Proof.
  revert g m. induction stages as [|i stages IH]; intros g m; simpl.
  - apply wp_ret. split; [done|]. split; [done|]. split; [apply quietly_refl | done].
  - apply wp_bind. unfold wp at 1, iterdir.
    destruct (stage_dirs (proj m) !! i) as [d|]; simpl.
    2:{ split; [done|]. split; [done|]. split; [apply quietly_refl | done]. }
    apply wp_bind. eapply wp_conseq; [apply gather_files_quiet|].
    intros [g'|e|] m1 (Hp & Hw & Hq & Hb); simpl in Hb; [| |done].
    2:{ done. }
    eapply wp_conseq; [apply IH|]. intros r m' (Hp' & Hw' & Hq' & Hb').
    split; [congruence|]. split; [congruence|]. split; [|done].
    eapply quietly_trans; eauto.
Qed.

Lemma gather_inputs_quiet k m :
  wp (_gather_inputs_for_stage json_load self k)
     (fun r m' => proj m' = proj m /\ world m' = world m /\ quietly m m' /\ benign r) m.
Proof.
  unfold _gather_inputs_for_stage. apply wp_bind, wp_emit.
  eapply wp_conseq; [apply gather_stages_quiet|]. intros r m' (Hp & Hw & Hq & Hb).
  split; [done|]. split; [done|]. split; [|done].
  eapply quietly_trans; [|exact Hq]. by apply quietly_add_log.
Qed.

Lemma run_agents_quiet names current_input acc m :
  wp (run_agents adk_system self current_input names acc)
     (fun r m' => keeps m m' /\ quietly m m' /\ benign r) m.
Proof.
  revert acc m. induction names as [|n names IH]; intros acc m; simpl.
  - apply wp_ret. split; [apply keeps_refl|]. split; [apply quietly_refl | done].
  - destruct (adk_system !! n) as [a|].
    + apply wp_bind. unfold wp at 1. rewrite process_request_eq.
      destruct (a _ (project_id self) (world m) (stage_dirs (proj m)))
        as [[w d] [r|msg]]; simpl.
      * eapply wp_conseq; [apply IH|]. intros r' m' (Hk & Hq & Hb).
        split; [|split; [|done]].
        -- eapply keeps_trans; [|exact Hk]. by apply keeps_same.
        -- eapply quietly_trans; [|exact Hq]. exists []. simpl. by rewrite app_nil_r.
      * split; [by apply keeps_same|]. split; [|done].
        exists []. simpl. by rewrite app_nil_r.
    + apply wp_bind, wp_emit. eapply wp_conseq; [apply IH|].
      intros r' m' (Hk & Hq & Hb). split; [|split; [|done]].
      * eapply keeps_trans; [|exact Hk]. by apply keeps_same.
      * eapply quietly_trans; [|exact Hq]. by apply quietly_add_log.
Qed.

(** The stage body starts its own stage and no other. *)
Lemma stage_body_trace s info m :
  wp (stage_body json_load adk_system self s info)
     (fun r m' => keeps m m' /\ benign r /\
        exists l, log m' = log m ++ l /\ stages_started l = [s]) m.
Proof.
  assert (forall m1 m2 : machine World,
            quietly (add_log [LogStageStart s (name info); LogActivating (agents info)] m1) m2 ->
            exists l, log m2 = log m1 ++ l /\ stages_started l = [s]) as Hstart.
  { intros m1 m2 (l & Hl & Hq). exists ([LogStageStart s (name info);
      LogActivating (agents info)] ++ l). simpl in Hl. rewrite Hl, <- app_assoc.
    split; [done|]. rewrite stages_started_app, Hq. done. }
  unfold stage_body. apply wp_bind, wp_emit, wp_bind, wp_emit. rewrite add_log_app.
  apply wp_bind. eapply wp_conseq; [apply gather_inputs_quiet|].
  intros [inputs|e|] m1 (Hp & Hw & Hq & Hb); simpl in Hb; [| |done].
  2:{ split; [apply keeps_same; by rewrite Hp|]. split; [done|]. by apply Hstart. }
  apply wp_bind. eapply wp_conseq; [apply run_agents_quiet|].
  intros [results|e|] m2 (Hk & Hq2 & Hb2); simpl in Hb2; [| |done].
  2:{ split; [|split; [done|]].
      - eapply keeps_trans; [|exact Hk]. apply keeps_same; by rewrite Hp.
      - apply Hstart. eapply quietly_trans; eauto. }
  apply wp_bind, wp_emit, wp_ret. split; [|split; [done|]].
  - eapply keeps_trans; [|eapply keeps_trans; [exact Hk|by apply keeps_same]].
    apply keeps_same; by rewrite Hp.
  - apply Hstart. eapply quietly_trans; [exact Hq|].
    eapply quietly_trans; [exact Hq2|]. by apply quietly_add_log.
Qed.

End Trace.

Section TraceRun.

Context {World : Type}.
Variable json_load : string -> load_outcome.
Variable adk_system : gmap string (agent World).
Variable self : manager.
Implicit Types m : machine World.

(** Stage [s] was entered between [m] and [m'], and nothing else. *)
Definition entered (s : nat) (m m' : machine World) : Prop :=
  keeps m m' /\ exists l, log m' = log m ++ l /\ stages_started l = [s].

Lemma entered_add_log s l m m1 :
  stages_started l = [] -> entered s m m1 -> entered s m (add_log l m1).
Proof.
  intros Hl [Hk (l0 & Hlog & Hs)]. split.
  - eapply keeps_trans; [exact Hk | by apply keeps_same].
  - exists (l0 ++ l). simpl. rewrite Hlog, <- app_assoc.
    split; [done|]. by rewrite stages_started_app, Hs, Hl.
Qed.

Lemma entered_with_approval s g data m m1 :
  entered s m m1 -> entered s m (with_approval g data m1).
Proof.
  intros [Hk (l0 & Hlog & Hs)]. split.
  - eapply keeps_trans; [exact Hk | apply keeps_with_approval].
  - exists l0. done.
Qed.

Lemma entered_of_body s l m m1 :
  stages_started l = [] ->
  keeps (add_log l m) m1 ->
  (exists l1, log m1 = log (add_log l m) ++ l1 /\ stages_started l1 = [s]) ->
  entered s m m1.
Proof.
  intros Hl Hk (l1 & Hlog & Hs). split.
  - eapply keeps_trans; [|exact Hk]. by apply keeps_same.
  - exists (l ++ l1). simpl in Hlog. rewrite Hlog, <- app_assoc.
    split; [done|]. by rewrite stages_started_app, Hl, Hs.
Qed.

Lemma trace_post_chain {A B} s next m m1 m2 (r2 : res A) (r : res B) :
  entered s m m1 ->
  stages_from s = s :: stages_from next ->
  trace_post (stages_from next) m1 r2 m2 ->
  (forall k, r <> Raise (StageNotFound k)) ->
  (forall v, r = Done v -> exists v2, r2 = Done v2) ->
  trace_post (stages_from s) m r m2.
Proof.
  intros [Hk (l0 & Hlog & Hs)] Hfrom (Hk2 & _ & l2 & Hlog2 & Hpre & Hdone) Hnf Hr.
  split; [by eapply keeps_trans|]. split; [done|].
  exists (l0 ++ l2). rewrite Hlog2, Hlog, <- app_assoc. split; [done|].
  rewrite stages_started_app, Hs, Hfrom. simpl. split.
  - by apply prefix_cons.
  - intros v Hv. destruct (Hr v Hv) as [v2 Hv2]. by rewrite (Hdone v2 Hv2).
Qed.

Lemma trace_post_last {B} s m m1 (r : res B) :
  entered s m m1 -> stages_from s = [s] ->
  (forall k, r <> Raise (StageNotFound k)) ->
  trace_post (stages_from s) m r m1.
Proof.
  intros [Hk (l0 & Hlog & Hs)] Hfrom Hnf. split; [done|]. split; [done|].
  exists l0. rewrite Hs, Hfrom. done.
Qed.

Lemma trace_post_abort {B} s info m m1 (r : res B) :
  entered s m m1 -> stage_lookup s = Some info ->
  (forall k, r <> Raise (StageNotFound k)) -> (forall v, r <> Done v) ->
  trace_post (stages_from s) m r m1.
Proof.
  intros [Hk (l0 & Hlog & Hs)] Hl Hnf Hnd. split; [done|]. split; [done|].
  destruct (stages_from_head _ _ Hl) as [rest Hrest].
  exists l0. rewrite Hs, Hrest. split; [done|]. split.
  - apply prefix_cons, prefix_nil.
  - intros v Hv. by destruct (Hnd v).
Qed.

Lemma wp_eq {A} (c c' : M World A) Q m : c m = c' m -> wp c' Q m -> wp c Q m.
Proof. unfold wp. by intros ->. Qed.

Lemma run_stage_fuel_trace fuel s m :
  is_Some (stage_lookup s) ->
  wp (run_stage_fuel json_load adk_system self fuel s)
     (trace_post (stages_from s) m) m.
Proof.
  revert s m. induction fuel as [|fuel IH]; intros s m [info Hl].
  { unfold wp. simpl. split; [apply keeps_refl|]. split; [done|].
    exists []. rewrite app_nil_r. split; [done|]. split; [apply prefix_nil | done]. }
  eapply wp_eq; [apply run_stage_fuel_S|].
  rewrite Hl. apply wp_bind, wp_emit, wp_bind.
  eapply wp_conseq; [apply stage_body_trace|].
  intros [results|e|] m1 (Hk & Hb & Hlog); simpl in Hb; [| |done].
  2:{ apply (trace_post_abort s info);
        [by apply (entered_of_body s [LogRunStage s]) | done | | done].
      intros k [= ->]. done. }
  assert (entered s m m1) as Hent by (by apply (entered_of_body s [LogRunStage s])).
  destruct (gate_after info) as [g0|] eqn:Hg0.
  - destruct (gate_after_declared _ _ _ Hl Hg0) as (gi & Hgi & _).
    pose proof (stages_from_gate _ _ _ _ Hl Hg0 Hgi) as Hfrom.
    apply wp_bind, wp_emit, wp_bind.
    unfold approve_gate_with. rewrite Hgi.
    apply wp_bind, wp_emit, wp_bind, wp_write_approval, wp_bind, wp_emit.
    assert (entered s m
              (add_log [LogGateApproved g0]
                 (with_approval g0 auto_approval
                    (add_log [LogApproving g0] (add_log [LogAutoApprove g0] m1)))))
      as Hent2.
    { apply entered_add_log; [done|]. apply entered_with_approval.
      apply entered_add_log; [done|]. by apply entered_add_log. }
    destruct (stage_declared (stage_before gi + 1)) eqn:Hdecl.
    + apply wp_bind. eapply wp_conseq.
      { apply IH. by apply bool_decide_eq_true in Hdecl. }
      intros [v|e|] m2 Hpost.
      * apply wp_ret, wp_ret.
        eapply (trace_post_chain s); [exact Hent2 | exact Hfrom | exact Hpost | done |].
        eauto.
      * eapply (trace_post_chain s); [exact Hent2 | exact Hfrom | exact Hpost | |done].
        destruct Hpost as (_ & Hnf & _). done.
      * eapply (trace_post_chain s); [exact Hent2 | exact Hfrom | exact Hpost | done | done].
    + apply wp_bind, wp_emit, wp_ret, wp_ret.
      apply trace_post_last; [by apply entered_add_log | | done].
      by rewrite Hfrom, (stages_from_undeclared _ Hdecl).
  - pose proof (stages_from_no_gate _ _ Hl Hg0) as Hfrom.
    destruct (stage_declared (s + 1)) eqn:Hdecl.
    + apply wp_bind, wp_emit, wp_bind. eapply wp_conseq.
      { apply IH. by apply bool_decide_eq_true in Hdecl. }
      assert (entered s m (add_log [LogNoGate s (s + 1)] m1)) as Hent2
        by (by apply entered_add_log).
      intros [v|e|] m2 Hpost.
      * apply wp_ret.
        eapply (trace_post_chain s); [exact Hent2 | exact Hfrom | exact Hpost | done |].
        eauto.
      * eapply (trace_post_chain s); [exact Hent2 | exact Hfrom | exact Hpost | |done].
        destruct Hpost as (_ & Hnf & _). done.
      * eapply (trace_post_chain s); [exact Hent2 | exact Hfrom | exact Hpost | done | done].
    + apply wp_ret. apply trace_post_last; [done | | done].
      by rewrite Hfrom, (stages_from_undeclared _ Hdecl).
Qed.

End TraceRun.

Section Order.

Context {World : Type}.
Variable json_load : string -> load_outcome.
Variable adk_system : gmap string (agent World).
Variable self : manager.
Implicit Types m : machine World.

Lemma run_stage_undeclared s m :
  stage_lookup s = None ->
  run_stage json_load adk_system self s m =
  (add_log [LogRunStage s] m, Raise (StageNotFound s)).
Proof. intros H. rewrite run_stage_eq_fuel. by apply run_stage_fuel_undeclared. Qed.

Lemma approve_gate_with_unknown (run : nat -> M World json) g data m :
  gate_lookup g = None ->
  approve_gate_with run g data m = (add_log [LogApproving g] m, Raise (GateNotFound g)).
Proof. intros H. unfold approve_gate_with, bind, emit. simpl. by rewrite H. Qed.

Lemma approve_gate_unknown g data m :
  gate_lookup g = None ->
  approve_gate json_load adk_system self g data m =
  (add_log [LogApproving g] m, Raise (GateNotFound g)).
Proof. apply approve_gate_with_unknown. Qed.

Lemma run_stage_trace s m :
  is_Some (stage_lookup s) ->
  wp (run_stage json_load adk_system self s) (trace_post (stages_from s) m) m.
Proof. apply run_stage_fuel_trace. Qed.

Lemma approve_gate_trace g gi data m :
  gate_lookup g = Some gi ->
  wp (approve_gate json_load adk_system self g data)
     (trace_post (stages_from (stage_before gi + 1)) m) m.
Proof.
  intros Hgi. unfold approve_gate, approve_gate_with. rewrite Hgi.
  apply wp_bind, wp_emit, wp_bind, wp_write_approval, wp_bind, wp_emit.
  set (m1 := add_log _ (with_approval _ _ _)).
  assert (keeps m m1) as Hk.
  { eapply keeps_trans; [|eapply keeps_trans; [apply keeps_with_approval|]];
      by apply keeps_same. }
  assert (exists l0, log m1 = log m ++ l0 /\ stages_started l0 = []) as (l0 & Hl0 & Hs0).
  { exists [LogApproving g; LogGateApproved g]. simpl. by rewrite <- app_assoc. }
  destruct (stage_declared (stage_before gi + 1)) eqn:Hdecl.
  - apply wp_bind. eapply wp_conseq.
    { apply run_stage_fuel_trace. by apply bool_decide_eq_true in Hdecl. }
    intros r m2 (Hk2 & Hnf & l2 & Hl2 & Hpre & Hdone).
    assert (log m2 = log m ++ (l0 ++ l2) /\
            stages_started (l0 ++ l2) = stages_started l2) as [Hlog Hst].
    { rewrite Hl2, Hl0, <- app_assoc, stages_started_app, Hs0. done. }
    destruct r as [v|e|].
    + apply wp_ret. split; [by eapply keeps_trans|]. split; [done|].
      exists (l0 ++ l2). rewrite Hst. split; [done|]. split; [done|].
      intros _ _. by apply (Hdone v).
    + split; [by eapply keeps_trans|]. split; [done|].
      exists (l0 ++ l2). rewrite Hst. done.
    + split; [by eapply keeps_trans|]. split; [done|].
      exists (l0 ++ l2). rewrite Hst. done.
  - apply wp_bind, wp_emit, wp_ret.
    split; [eapply keeps_trans; [exact Hk | by apply keeps_same]|]. split; [done|].
    exists (l0 ++ [LogFinalGate]).
    change (log (add_log [LogFinalGate] m1)) with (log m1 ++ [LogFinalGate]).
    rewrite Hl0, <- app_assoc.
    rewrite stages_started_app, Hs0, (stages_from_undeclared _ Hdecl). done.
Qed.

Lemma stages_from_without_18 s : s <> 18 -> 18 ∉ stages_from s.
Proof.
  intros Hs. unfold stages_from. destruct (decide (1 <= s <= 17)).
  - rewrite elem_of_seq. lia.
  - rewrite decide_False by done. apply not_elem_of_nil.
Qed.

Lemma prefix_not_elem {A} (x : A) (l1 l2 : list A) :
  l1 `prefix_of` l2 -> x ∉ l2 -> x ∉ l1.
Proof. intros [k ->] H Hin. apply H, elem_of_app. by left. Qed.





End Order.

(** ** More on input aggregation *)

Section AggregationMore.

Context {World : Type}.
Variable json_load : string -> load_outcome.
Variable adk_system : gmap string (agent World).
Variable self : manager.
Implicit Types m : machine World.


(** Reading the files of one directory ends with a mapping or with what
    [json.load] raised. *)
Lemma gather_files_outcome fs g m :
  match (gather_files json_load fs g m).2 with
  | Done _ | Raise (LoadFailed _) => True
  | _ => False
  end.
Proof.
  revert g m. induction fs as [|f fs IH]; intros g m; simpl; [done|].
  unfold bind, gather_file. destruct (decide (suffix f = ".json")); [|apply IH].
  destruct (json_load (content f)) as [v| |message]; simpl; [apply IH | apply IH | done].
Qed.

Lemma gather_stages_missing_dir stages g m j :
  (gather_stages json_load stages g m).2 = Raise (DirNotFound j) ->
  exists pre post,
    stages = pre ++ j :: post /\
    (forall i, i ∈ pre -> is_Some (stage_dirs (proj m) !! i)) /\
    stage_dirs (proj m) !! j = None.
Proof.
  revert g m. induction stages as [|i stages IH]; intros g m; simpl; [discriminate|].
  unfold bind at 1, iterdir.
  destruct (stage_dirs (proj m) !! i) as [d|] eqn:Hd.
  - unfold bind at 1.
    pose proof (gather_files_wp json_load d g m) as [Hp _].
    pose proof (gather_files_outcome d g m) as Hout.
    destruct (gather_files json_load d g m) as [m1 [g'|e|]]; simpl in *.
    + intros (pre & post & -> & Hpre & Hnone)%IH. rewrite Hp in Hpre, Hnone.
      exists (i :: pre), post. split; [done|]. split; [|done].
      intros i' [->|Hi']%elem_of_cons; [eauto | by apply Hpre].
    + intros [= ->]. done.
    + discriminate.
  - simpl. intros [= <-]. exists [], stages. split; [done|]. split; [|done].
    intros i' Hi'. by apply elem_of_nil in Hi'.
Qed.

Lemma gather_stages_stops pre j post g m files :
  files_of pre (stage_dirs (proj m)) = Some files ->
  loadable json_load files ->
  stage_dirs (proj m) !! j = None ->
  gather_stages json_load (pre ++ j :: post) g m =
  (add_log (warnings_of json_load files) m, Raise (DirNotFound j)).
Proof.
  revert g m files. induction pre as [|i pre IH]; intros g m files; simpl.
  - intros [= <-] _ Hnone. unfold bind, iterdir. by rewrite Hnone, add_log_nil.
  - unfold bind at 1, iterdir.
    destruct (stage_dirs (proj m) !! i) as [d|] eqn:Hd; [|discriminate].
    destruct (files_of pre (stage_dirs (proj m))) as [l|] eqn:Hl; [|discriminate].
    intros [= <-] [Hd' Hl']%loadable_app Hnone. unfold bind at 1.
    rewrite gather_files_eq by done.
    rewrite (IH _ _ l); [|done|done|done].
    rewrite add_log_app. unfold warnings_of. by rewrite flat_map_app.
Qed.

Lemma seq_split_at pre i post k :
  seq 1 (k - 1) = pre ++ i :: post -> 1 <= i < k /\ pre = seq 1 (i - 1).
Proof.
  intros H.
  assert (length pre < k - 1) as Hlen.
  { apply (f_equal length) in H. rewrite length_seq, length_app in H. simpl in H. lia. }
  assert (i = 1 + length pre) as Hi.
  { assert (seq 1 (k - 1) !! length pre = Some i) as Hi.
    { rewrite H. by rewrite list_lookup_middle. }
    apply lookup_seq in Hi. lia. }
  split; [lia|].
  assert (pre = take (length pre) (seq 1 (k - 1))) as Hpre.
  { rewrite H. by rewrite take_app_length. }
  rewrite take_seq in Hpre. rewrite Hpre at 1. f_equal. lia.
Qed.

Lemma seq_cut j k :
  1 <= j < k -> seq 1 (k - 1) = seq 1 (j - 1) ++ j :: seq (j + 1) (k - 1 - j).
Proof.
  intros Hj. replace (k - 1) with ((j - 1) + S (k - 1 - j)) at 1 by lia.
  rewrite seq_app. simpl. do 2 f_equal; [lia | f_equal; lia].
Qed.

Lemma gather_inputs_missing k m j :
  (_gather_inputs_for_stage json_load self k m).2 = Raise (DirNotFound j) ->
  1 <= j < k /\ stage_dirs (proj m) !! j = None /\
  forall i, 1 <= i < j -> is_Some (stage_dirs (proj m) !! i).
Proof.
  unfold _gather_inputs_for_stage. rewrite bind_emit.
  intros (pre & post & Hsplit & Hpre & Hnone)%gather_stages_missing_dir.
  apply seq_split_at in Hsplit as [Hj ->]. split; [done|]. split; [done|].
  intros i Hi. apply Hpre, elem_of_seq. lia.
Qed.

Lemma gather_inputs_stops k m j :
  1 <= j < k -> stage_dirs (proj m) !! j = None ->
  (forall i, 1 <= i < j -> is_Some (stage_dirs (proj m) !! i)) ->
  (forall i d f message, 1 <= i < j -> stage_dirs (proj m) !! i = Some d -> f ∈ d ->
     suffix f = ".json" -> json_load (content f) <> LoadRaised message) ->
  exists l,
    _gather_inputs_for_stage json_load self k m = (add_log l m, Raise (DirNotFound j)).
Proof.
  intros Hj Hnone Hbelow Hloads.
  destruct (prior_files_exist j m Hbelow) as [files Hfiles].
  pose proof (loadable_prior_files json_load j m files Hfiles Hloads) as Hload.
  unfold _gather_inputs_for_stage. rewrite bind_emit, (seq_cut j k Hj).
  rewrite (gather_stages_stops _ _ _ _ _ files), add_log_app; [eauto|done..].
Qed.


End AggregationMore.

(** ** What the approval record and the registry do not influence *)

Section Independence.

Context {World : Type}.
Variable json_load : string -> load_outcome.
Variable adk_system : gmap string (agent World).
Variable self : manager.
Implicit Types m : machine World.

Lemma alike_bind {A B} R (c : M World A) (k : A -> M World B) m1 m2 :
  alike R (c m1) (c m2) ->
  (forall a m1' m2', R m1' m2' -> alike R (k a m1') (k a m2')) ->
  alike R (bind c k m1) (bind c k m2).
Proof.
  unfold alike, bind. destruct (c m1) as [m1' r1], (c m2) as [m2' r2]. simpl.
  intros [<- HR] Hk. destruct r1 as [a|e|]; [by apply Hk | done | done].
Qed.

Lemma alike_bind2 {A B} R (c1 c2 : M World A) (k1 k2 : A -> M World B) m1 m2 :
  alike R (c1 m1) (c2 m2) ->
  (forall a m1' m2', R m1' m2' -> alike R (k1 a m1') (k2 a m2')) ->
  alike R (bind c1 k1 m1) (bind c2 k2 m2).
Proof.
  unfold alike, bind. destruct (c1 m1) as [m1' r1], (c2 m2) as [m2' r2]. simpl.
  intros [<- HR] Hk. destruct r1 as [a|e|]; [by apply Hk | done | done].
Qed.

Section Gate.

Variable g : string.

Lemma same_add_log l m1 m2 : same_but_gate g m1 m2 -> same_but_gate g (add_log l m1) (add_log l m2).
Proof. intros (Hw & Hl & Hd & Hi & Ha). repeat split; simpl; try done. by rewrite Hl. Qed.

Lemma alike_emit e m1 m2 : same_but_gate g m1 m2 -> alike (same_but_gate g) (emit e m1) (emit e m2).
Proof. intros H. split; [done|]. by apply (same_add_log [e]). Qed.

Lemma alike_gather_files fs inputs m1 m2 :
  same_but_gate g m1 m2 ->
  alike (same_but_gate g) (gather_files json_load fs inputs m1)
          (gather_files json_load fs inputs m2).
Proof.
  revert inputs m1 m2. induction fs as [|f fs IH]; intros inputs m1 m2 HR; simpl.
  - by split.
  - apply alike_bind; [|intros; by apply IH]. unfold gather_file.
    destruct (decide (suffix f = ".json")); [|by split].
    destruct (json_load (content f)) as [v| |message]; [by split | | by split].
    apply alike_bind; [by apply alike_emit | intros _ ? ? ?]. by split.
Qed.

Lemma alike_gather_stages stages inputs m1 m2 :
  same_but_gate g m1 m2 ->
  alike (same_but_gate g) (gather_stages json_load stages inputs m1)
          (gather_stages json_load stages inputs m2).
Proof.
  revert inputs m1 m2. induction stages as [|i stages IH]; intros inputs m1 m2 HR; simpl.
  - by split.
  - apply alike_bind.
    + unfold iterdir. destruct HR as (Hw & Hl & Hd & Hi & Ha). rewrite Hd.
      destruct (stage_dirs (proj m2) !! i); by split.
    + intros d m1' m2' HR'.
      apply alike_bind; [by apply alike_gather_files | intros; by apply IH].
Qed.

Lemma alike_run_agents names current_input acc m1 m2 :
  same_but_gate g m1 m2 ->
  alike (same_but_gate g) (run_agents adk_system self current_input names acc m1)
          (run_agents adk_system self current_input names acc m2).
Proof.
  revert acc m1 m2. induction names as [|n names IH]; intros acc m1 m2 HR; simpl.
  - by split.
  - destruct (adk_system !! n) as [a|].
    + apply alike_bind; [|intros; by apply IH].
      rewrite !process_request_eq. destruct HR as (Hw & Hl & Hd & Hi & Ha).
      rewrite Hw, Hd.
      destruct (a _ (project_id self) (world m2) (stage_dirs (proj m2)))
        as [[w d] [r|msg]]; (split; [done|]); repeat split; done.
    + apply alike_bind; [by apply alike_emit | intros; by apply IH].
Qed.

Lemma alike_stage_body s info m1 m2 :
  same_but_gate g m1 m2 ->
  alike (same_but_gate g) (stage_body json_load adk_system self s info m1)
          (stage_body json_load adk_system self s info m2).
Proof.
  intros HR. unfold stage_body.
  apply alike_bind; [by apply alike_emit | intros _ ? ? ?].
  apply alike_bind; [by apply alike_emit | intros _ ? ? ?].
  apply alike_bind.
  { unfold _gather_inputs_for_stage.
    apply alike_bind; [by apply alike_emit | intros _ ? ? ?].
    by apply alike_gather_stages. }
  intros inputs ? ? ?.
  apply alike_bind; [by apply alike_run_agents | intros results ? ? ?].
  apply alike_bind; [by apply alike_emit | intros _ ? ? ?]. by split.
Qed.

Lemma alike_write_approval g' data m1 m2 :
  same_but_gate g m1 m2 -> alike (same_but_gate g) (write_approval g' data m1) (write_approval g' data m2).
Proof.
  intros (Hw & Hl & Hd & Hi & Ha). split; [done|]. repeat split; simpl; try done.
  intros g'' Hne. destruct (decide (g' = g'')) as [->|Hne'].
  - by rewrite !lookup_insert_eq.
  - rewrite !lookup_insert_ne by done. by apply Ha.
Qed.

Lemma alike_approve_gate_with (run : nat -> M World json) g' data m1 m2 :
  (forall s m1' m2', same_but_gate g m1' m2' -> alike (same_but_gate g) (run s m1') (run s m2')) ->
  same_but_gate g m1 m2 ->
  alike (same_but_gate g) (approve_gate_with run g' data m1) (approve_gate_with run g' data m2).
Proof.
  intros Hrun HR. unfold approve_gate_with.
  apply alike_bind; [by apply alike_emit | intros _ ? ? ?].
  destruct (gate_lookup g') as [gi|]; [|by split].
  apply alike_bind; [by apply alike_write_approval | intros _ ? ? ?].
  apply alike_bind; [by apply alike_emit | intros _ ? ? ?].
  destruct (stage_declared (stage_before gi + 1)).
  - apply alike_bind; [by apply Hrun | intros _ ? ? ?]. by split.
  - apply alike_bind; [by apply alike_emit | intros _ ? ? ?]. by split.
Qed.

Lemma alike_run_stage_fuel fuel s m1 m2 :
  same_but_gate g m1 m2 ->
  alike (same_but_gate g) (run_stage_fuel json_load adk_system self fuel s m1)
          (run_stage_fuel json_load adk_system self fuel s m2).
Proof.
  revert s m1 m2. induction fuel as [|fuel IH]; intros s m1 m2 HR; [by split|].
  rewrite !run_stage_fuel_S.
  apply alike_bind; [by apply alike_emit | intros _ ? ? ?].
  destruct (stage_lookup s) as [info|]; [|by split].
  apply alike_bind; [by apply alike_stage_body | intros results ? ? ?].
  destruct (gate_after info) as [g0|].
  - apply alike_bind; [by apply alike_emit | intros _ ? ? ?].
    apply alike_bind; [|intros _ ? ? ?; by split].
    apply alike_approve_gate_with; [|done]. intros; by apply IH.
  - destruct (stage_declared (s + 1)); [|by split].
    apply alike_bind; [by apply alike_emit | intros _ ? ? ?].
    apply alike_bind; [by apply IH | intros _ ? ? ?]. by split.
Qed.

End Gate.


Lemma run_agents_registered names current_input acc m1 m2 :
  same_store m1 m2 ->
  alike same_store
    (run_agents adk_system self current_input names acc m1)
    (run_agents adk_system self current_input (registered adk_system names) acc m2).
Proof.
  revert acc m1 m2. induction names as [|n names IH]; intros acc m1 m2 [Hp Hw].
  - by split.
  - unfold registered. rewrite filter_cons.
    destruct (adk_system !! n) as [a|] eqn:Ha.
    + rewrite decide_True by eauto. simpl. rewrite Ha.
      unfold bind. rewrite !process_request_eq, Hp, Hw.
      destruct (a _ (project_id self) (world m2) (stage_dirs (proj m2)))
        as [[w d] [r|msg]].
      * apply IH. split; simpl; by rewrite ?Hp.
      * split; [done|]. split; simpl; by rewrite ?Hp.
    + rewrite decide_False by (intros [? ?]; done). simpl. rewrite Ha.
      unfold bind at 1, emit. simpl. by apply IH.
Qed.


End Independence.

(** ** Constructing a manager and rendering the status *)

Lemma mkdir_stages_dirs p l i :
  stage_dirs (foldl mkdir_stage p l) !! i =
  match stage_dirs p !! i with
  | Some d => Some d
  | None => if decide (i ∈ l) then Some [] else None
  end.
Proof.
  revert p. induction l as [|j l IH]; intros p; cbn [foldl].
  - destruct (stage_dirs p !! i); [done|].
    destruct (decide (i ∈ [])) as [H|H]; [by apply elem_of_nil in H | done].
  - rewrite IH. unfold mkdir_stage.
    destruct (stage_dirs p !! j) as [dj|] eqn:Hj; cbn [stage_dirs].
    + destruct (stage_dirs p !! i) as [d|] eqn:Hi; [done|].
      destruct (decide (i ∈ l)) as [Hin|Hnin], (decide (i ∈ j :: l)) as [Hin'|Hnin'];
        try done.
      * destruct Hnin'. by apply list_elem_of_further.
      * apply elem_of_cons in Hin' as [->|?]; [congruence | done].
    + destruct (decide (j = i)) as [->|Hne].
      * rewrite lookup_insert_eq, Hj.
        destruct (decide (i ∈ i :: l)) as [?|Hnin]; [done|].
        destruct Hnin. apply list_elem_of_here.
      * rewrite lookup_insert_ne by done.
        destruct (stage_dirs p !! i) as [d|]; [done|].
        destruct (decide (i ∈ l)) as [Hin|Hnin], (decide (i ∈ j :: l)) as [Hin'|Hnin'];
          try done.
        -- destruct Hnin'. by apply list_elem_of_further.
        -- apply elem_of_cons in Hin' as [->|?]; done.
Qed.

Lemma mkdir_stages_rest p l :
  approvals (foldl mkdir_stage p l) = approvals p /\
  initial_project_data (foldl mkdir_stage p l) = initial_project_data p.
Proof.
  revert p. induction l as [|j l IH]; intros p; simpl; [done|].
  destruct (IH (mkdir_stage p j)) as [-> ->]. unfold mkdir_stage.
  by destruct (stage_dirs p !! j).
Qed.

Lemma mkdir_stages_id p l :
  (forall i, i ∈ l -> is_Some (stage_dirs p !! i)) -> foldl mkdir_stage p l = p.
Proof.
  induction l as [|j l IH]; intros H; simpl; [done|].
  unfold mkdir_stage at 2. destruct (H j) as [d ->]; [apply list_elem_of_here|].
  apply IH. intros i Hi. apply H. by apply list_elem_of_further.
Qed.

Lemma elem_of_stage_ids i : i ∈ WORKFLOW_STAGES.*1 <-> 1 <= i <= 18.
Proof. change (WORKFLOW_STAGES.*1) with (seq 1 18). rewrite elem_of_seq. lia. Qed.

Lemma initialize_project_result (self : manager) (store : gmap string project_dir) :
  exists p1 p',
    _initialize_project self store = <[project_id self := p']> store /\
    stage_dirs p1 = stage_dirs (default empty_project (store !! project_id self)) /\
    approvals p1 = approvals (default empty_project (store !! project_id self)) /\
    match initial_data self with
    | [] => initial_project_data p1
            = initial_project_data (default empty_project (store !! project_id self))
    | _ :: _ => initial_project_data p1 = Some (JObj (initial_data self))
    end /\
    (forall i, stage_dirs p' !! i =
       match stage_dirs p1 !! i with
       | Some d => Some d
       | None => if decide (1 <= i <= 18) then Some [] else None
       end) /\
    approvals p' = approvals p1 /\
    initial_project_data p' = initial_project_data p1 /\
    (forall i, 1 <= i <= 18 -> is_Some (stage_dirs p' !! i)).
Proof.
  unfold _initialize_project.
  set (ids := WORKFLOW_STAGES.*1).
  assert (forall i, i ∈ ids <-> 1 <= i <= 18) as Hids by apply elem_of_stage_ids.
  clearbody ids.
  set (p0 := default empty_project (store !! project_id self)).
  exists (match initial_data self with
          | [] => p0
          | _ :: _ => {| initial_project_data := Some (JObj (initial_data self));
                         stage_dirs := stage_dirs p0; approvals := approvals p0 |}
          end).
  eexists. split; [reflexivity|].
  split; [by destruct (initial_data self)|].
  split; [by destruct (initial_data self)|].
  split; [by destruct (initial_data self)|].
  destruct (mkdir_stages_rest
              (match initial_data self with
               | [] => p0
               | _ :: _ => {| initial_project_data := Some (JObj (initial_data self));
                              stage_dirs := stage_dirs p0; approvals := approvals p0 |}
               end) ids) as [Ha Hi].
  assert (forall i p, stage_dirs (foldl mkdir_stage p ids) !! i =
            match stage_dirs p !! i with
            | Some d => Some d
            | None => if decide (1 <= i <= 18) then Some [] else None
            end) as Hdirs.
  { intros i p. rewrite mkdir_stages_dirs. destruct (stage_dirs p !! i); [done|].
    destruct (decide (i ∈ ids)) as [Hin|Hnin], (decide (1 <= i <= 18)) as [Hr|Hnr];
      try done.
    - by apply Hids in Hin.
    - by apply Hids in Hr. }
  split; [intros i; apply Hdirs|]. split; [done|]. split; [done|].
  intros i Hr. rewrite Hdirs.
  match goal with |- is_Some (match ?x with _ => _ end) => destruct x end; [eauto|].
  rewrite decide_True by done. eauto.
Qed.


Section StatusShape.

Variable render_artifacts : file -> list artifact.

Lemma status_of_stage_inr p u s info e :
  status_of_stage render_artifacts p u s info = inr e ->
  status_stage_id e = s /\ status_name e = name info /\
  (exists d, stage_dirs p !! s = Some d /\
     status_artifacts e = flat_map render_artifacts d) /\
  (status_artifacts e <> [] -> status e = "Completed") /\
  (status_artifacts e = [] ->
   status e = if decide (s = 1 \/ s <= u) then "Pending" else "Locked").
Proof.
  unfold status_of_stage. destruct (stage_dirs p !! s) as [d|]; [|discriminate].
  intros [= <-]. simpl. split; [done|]. split; [done|]. split; [eauto|].
  destruct (flat_map render_artifacts d) as [|a l]; (split; [done|]); [|done].
  intros _. destruct (decide (s = 1 \/ s <= u)) as [[->|Hle]|Hn].
  - done.
  - destruct (s =? 1)%nat; [done|]. by rewrite (proj2 (Nat.leb_le s u)).
  - rewrite (proj2 (Nat.eqb_neq s 1)) by lia.
    rewrite (proj2 (Nat.leb_gt s u)) by lia. done.
Qed.

Lemma stages_status_inr p u l :
  (forall s, s ∈ l.*1 -> is_Some (stage_dirs p !! s)) ->
  exists ss,
    stages_status render_artifacts p u l = inr ss /\
    Forall2 (fun e si => status_of_stage render_artifacts p u si.1 si.2 = inr e) ss l.
Proof.
  induction l as [|[s info] l IH]; intros H; simpl.
  - exists []. split; [done | constructor].
  - destruct (status_of_stage render_artifacts p u s info) as [e|e] eqn:He.
    { unfold status_of_stage in He.
      destruct (H s) as [d Hd]; [apply list_elem_of_here|]. by rewrite Hd in He. }
    destruct IH as (ss & -> & Hall).
    { intros s' Hs'. apply H. by apply list_elem_of_further. }
    exists (e :: ss). split; [done|]. by constructor.
Qed.

Lemma stages_status_inl p u l s :
  s ∈ l.*1 -> stage_dirs p !! s = None ->
  exists s', stages_status render_artifacts p u l = inl (DirNotFound s').
Proof.
  induction l as [|[s0 info] l IH]; intros Hin Hnone; simpl.
  - by apply elem_of_nil in Hin.
  - unfold status_of_stage at 1. destruct (stage_dirs p !! s0) as [d|] eqn:Hd; [|eauto].
    simpl in Hin. apply elem_of_cons in Hin as [->|Hin]; [congruence|].
    destruct (IH Hin Hnone) as [s' ->]. eauto.
Qed.

Lemma stages_status_entries p u ss (l : list (nat * stage_info)) :
  Forall2 (fun e si => status_of_stage render_artifacts p u si.1 si.2 = inr e) ss l ->
  status_stage_id <$> ss = l.*1 /\
  status_name <$> ss = name <$> l.*2 /\
  forall e, e ∈ ss -> exists si, si ∈ l /\
    status_of_stage render_artifacts p u si.1 si.2 = inr e.
Proof.
  intros Hall. induction Hall as [|e [s info] ss l He Hall IH].
  - split; [done|]. split; [done|]. intros e He. by apply elem_of_nil in He.
  - destruct IH as (IH1 & IH2 & IH3).
    apply status_of_stage_inr in He as He'. destruct He' as (Hid & Hname & _).
    cbn [fst snd] in *. rewrite !fmap_cons. cbn [fst snd].
    split; [by rewrite Hid, IH1|]. split; [by rewrite Hname, IH2|].
    intros e' He'. apply elem_of_cons in He' as [->|He'].
    + exists (s, info). split; [apply list_elem_of_here | done].
    + destruct (IH3 e' He') as (si & Hsi & Hst).
      exists si. split; [by apply list_elem_of_further | done].
Qed.

Lemma project_status_ok (self : manager) (p : project_dir) :
  (forall i, 1 <= i <= 18 -> is_Some (stage_dirs p !! i)) ->
  exists st,
    get_project_status render_artifacts self p = inr st /\
    status_project_id st = project_id self /\
    pending_gate st = _get_pending_gate p /\
    status_stage_id <$> stages st = seq 1 18 /\
    status_name <$> stages st = name <$> WORKFLOW_STAGES.*2 /\
    forall e, e ∈ stages st ->
      (exists d, stage_dirs p !! status_stage_id e = Some d /\
         status_artifacts e = flat_map render_artifacts d) /\
      (status_artifacts e <> [] -> status e = "Completed") /\
      (status_artifacts e = [] ->
       status e = if decide (status_stage_id e = 1 \/
                             status_stage_id e <= unlock_boundary p)
                  then "Pending" else "Locked") /\
      (status_stage_id e = 1 -> status e <> "Locked") /\
      (_get_pending_gate p = None -> status e <> "Locked").
Proof.
  intros Hdirs. unfold get_project_status. fold (_get_pending_gate p).
  fold (unlock_boundary p).
  destruct (stages_status_inr p (unlock_boundary p) WORKFLOW_STAGES)
    as (ss & Hss & Hall).
  { intros s Hs. apply Hdirs. by apply elem_of_stage_ids. }
  rewrite Hss. eexists. split; [reflexivity|]. cbn [status_project_id pending_gate stages].
  split; [done|]. split; [done|].
  destruct (stages_status_entries _ _ _ _ Hall) as (Hids & Hnames & Helem).
  split; [done|]. split; [done|].
  intros e He. destruct (Helem e He) as ([s info] & Hin & Hst).
  apply status_of_stage_inr in Hst as (Hid & _ & Hd & Hc & Hp).
  cbn [fst snd] in *. subst s.
  assert (1 <= status_stage_id e <= 18) as Hrange.
  { apply elem_of_stage_ids. apply list_elem_of_fmap. by exists (status_stage_id e, info). }
  split; [done|]. split; [done|]. split; [done|].
  destruct (status_artifacts e) as [|a l] eqn:Ha.
  + rewrite Hp by done. split.
    * intros H1. rewrite decide_True by auto. done.
    * intros Hnone. unfold unlock_boundary. rewrite Hnone.
      rewrite decide_True by lia. done.
  + rewrite Hc by done. done.
Qed.



End StatusShape.

(** ** The artifact endpoint and the creation of a project *)

Section HandlerFacts.

Context {World : Type}.
Variable json_load : string -> load_outcome.
Variable adk_system : gmap string (agent World).

Lemma find_file_name (d : list file) artifact_name :
  match find (fun f => bool_decide (file_name f = artifact_name)) d with
  | Some f => f ∈ d /\ file_name f = artifact_name
  | None => forall f, f ∈ d -> file_name f <> artifact_name
  end.
Proof.
  induction d as [|f d IH]; simpl.
  - intros f Hf. by apply elem_of_nil in Hf.
  - destruct (bool_decide (file_name f = artifact_name)) eqn:Hb.
    + apply bool_decide_eq_true in Hb. split; [apply list_elem_of_here | done].
    + apply bool_decide_eq_false in Hb.
      destruct (find _ d) as [f'|].
      * destruct IH. split; [by apply list_elem_of_further | done].
      * intros f' [->|Hf']%elem_of_cons; [done | by apply IH].
Qed.



End HandlerFacts.

(** ** The further properties at concrete inputs *)

Lemma after_intake_loadable :
  loadable Sample.load [Sample.charter; Sample.broken].
Proof.
  intros f message Hf _. apply list_elem_of_In in Hf. simpl in Hf.
  destruct Hf as [<-|[<-|[]]]; vm_compute; discriminate.
Qed.












